(** * Call-wrapping policies of [decorators.py]

    A shallow embedding of the stateful decorators of [decorators.py]
    ([retry], [cache], [rate_limit], [validate_input], [circuit_breaker])
    and the properties their specification states about them.

    Conventions of the embedding.
    - Timestamps and durations (Python [float]/[int] seconds) are exact
      rationals [Q]; rounding of binary floating point is not modelled.
    - Every wrapper reads the clock once, on entry
      ([current_time = time.time()]); that reading is the argument
      [current_time] of the wrapper's model.
    - The wrapped function is an arbitrary stateful operation on a user
      state [W] that returns a value or raises.  The [World] also counts
      how often the wrapped function was invoked and logs every
      [time.sleep], which is how "invoked exactly once" is stated.
    - Exception messages built with f-strings are kept as structured
      terms ([Message]) holding the interpolated values.
    - Logging and [functools.wraps] do not touch the modelled state and
      are left out, as are [timing_decorator], [async_timing_decorator]
      and [logging_decorator], which pass results and exceptions through
      unchanged. *)

From Stdlib Require Import QArith Qpower Lqa.
From Stdlib Require Import Sorting.Permutation DecimalString.
From stdpp Require Import gmap strings list sorting.

Local Open Scope Z_scope.

(** ** Numbers *)

Definition Qltb (x y : Q) : bool := (Qnum x * QDen y <? Qnum y * QDen x)%Z.
Definition Qleb (x y : Q) : bool := (Qnum x * QDen y <=? Qnum y * QDen x)%Z.

(** [range(lo, hi)] *)
Definition py_range (lo hi : Z) : list Z :=
  map (fun i : nat => lo + Z.of_nat i) (seq 0 (Z.to_nat (hi - lo))).

(** ** Exceptions *)

Inductive ExnClass :=
| BaseException | Exception | KeyboardInterrupt
| ValueError | TypeError | AttributeError | RuntimeError
| LookupError | KeyError | IndexError
| OSError | ConnectionError.

Definition exn_base (c : ExnClass) : option ExnClass :=
  match c with
  | BaseException => None
  | Exception | KeyboardInterrupt => Some BaseException
  | ValueError | TypeError | AttributeError | RuntimeError
  | LookupError | OSError => Some Exception
  | KeyError | IndexError => Some LookupError
  | ConnectionError => Some OSError
  end.

Definition ExnClass_eqb (c d : ExnClass) : bool :=
  match c, d with
  | BaseException, BaseException | Exception, Exception
  | KeyboardInterrupt, KeyboardInterrupt | ValueError, ValueError
  | TypeError, TypeError | AttributeError, AttributeError
  | RuntimeError, RuntimeError | LookupError, LookupError
  | KeyError, KeyError | IndexError, IndexError
  | OSError, OSError | ConnectionError, ConnectionError => true
  | _, _ => false
  end.

(** [issubclass(c, d)]: walk the chain of base classes (depth at most 4). *)
Fixpoint issubclass_fuel (fuel : nat) (c d : ExnClass) : bool :=
  ExnClass_eqb c d ||
  match fuel with
  | O => false
  | S fuel' =>
      match exn_base c with
      | Some b => issubclass_fuel fuel' b d
      | None => false
      end
  end.

Definition issubclass (c d : ExnClass) : bool := issubclass_fuel 4 c d.

Section Model.

(** Python values (arguments and results) and the state the wrapped
    function works on. *)
Context {Value W : Type}.

(** The interpolated contents of the messages the decorators build. *)
Inductive Message :=
| MsgText (s : string)
| MsgRateLimit (func_name : string) (wait_time : Q)
    (* "Rate limit excedido para {name}. Espera {wait_time:.2f} segundos" *)
| MsgValidation (param_name : string) (value : Value)
    (* "Validación fallida para parámetro '{param_name}' con valor: {value}" *)
| MsgCircuitOpen (func_name : string) (wait_time : Q)
    (* "Circuit breaker abierto para {name}. Espera {wait_time:.2f} segundos" *)
| MsgNoAttribute (module_name attr : string)
    (* "module '{module}' has no attribute '{attr}'" *)
| MsgKey (key : string)
| MsgBind (reason : string).

Record Exn := mkExn { exn_class : ExnClass; exn_msg : Message }.

(** [isinstance(e, exceptions)] for a tuple of classes, the test of
    [except exceptions as e]. *)
Definition isinstance (e : Exn) (exceptions : list ExnClass) : bool :=
  existsb (issubclass (exn_class e)) exceptions.

Inductive Outcome (A : Type) :=
| Return (a : A)
| Raise (e : Exn).
#[global] Arguments Return {A} a.
#[global] Arguments Raise {A} e.

(** ** The world outside the decorators *)

Record World := mkWorld {
  user : W;               (* state the wrapped function reads and writes *)
  invocations : nat;      (* how often the wrapped function was entered *)
  sleeps : list Q         (* arguments of completed [time.sleep] calls, oldest first *)
}.

(** A wrapped function: positional arguments, keyword arguments (in call
    order), user state in; value or exception and user state out. *)
Definition Callable : Type :=
  list Value -> list (string * Value) -> W -> Outcome Value * W.

(** ** State and exception monad

    [S] is the decorator's own storage (closure variables or its slot of
    a module-level dictionary). *)
Definition M (S A : Type) : Type := S * World -> Outcome A * (S * World).

Definition ret {S A} (a : A) : M S A := fun s => (Return a, s).
Definition raise {S A} (e : Exn) : M S A := fun s => (Raise e, s).
Definition bind {S A B} (m : M S A) (k : A -> M S B) : M S B :=
  fun s => match m s with
           | (Return a, s') => k a s'
           | (Raise e, s') => (Raise e, s')
           end.
Definition get_store {S} : M S S := fun s => (Return (fst s), s).
Definition put_store {S} (x : S) : M S unit := fun s => (Return tt, (x, snd s)).

(** [try: m  except exceptions as e: handler e] *)
Definition try_except {S A} (m : M S A) (exceptions : list ExnClass)
    (handler : Exn -> M S A) : M S A :=
  fun s => match m s with
           | (Return a, s') => (Return a, s')
           | (Raise e, s') =>
               if isinstance e exceptions then handler e s' else (Raise e, s')
           end.

(** the call of the wrapped function, [func] applied to [args] and [kwargs] *)
Definition invoke {S} (func : Callable) (args : list Value)
    (kwargs : list (string * Value)) : M S Value :=
  fun s =>
    let w := snd s in
    let (o, u) := func args kwargs (user w) in
    (o, (fst s, {| user := u; invocations := Datatypes.S (invocations w); sleeps := sleeps w |})).

(** [time.sleep(d)]: a negative argument raises [ValueError]. *)
Definition time_sleep {S} (d : Q) : M S unit :=
  fun s =>
    if Qltb d 0 then
      (Raise (mkExn ValueError (MsgText "sleep length must be non-negative")), s)
    else
      let w := snd s in
      (Return tt, (fst s, {| user := user w; invocations := invocations w;
                             sleeps := sleeps w ++ [d] |})).

End Model.

#[global] Arguments Message : clear implicits.
#[global] Arguments Exn : clear implicits.
#[global] Arguments Outcome : clear implicits.
#[global] Arguments World : clear implicits.
#[global] Arguments Callable : clear implicits.
#[global] Arguments M : clear implicits.

Declare Scope py_scope.
Delimit Scope py_scope with py.
Notation "'let*' x ':=' m 'in' k" := (bind m (fun x => k))
  (at level 10, x name, m at level 100, k at level 200) : py_scope.
Notation "m '>>' k" := (bind m (fun _ => k))
  (at level 90, right associativity) : py_scope.

Local Open Scope py_scope.

(** ** [retry] (lines 109-147) *)

Section Retry.
Context {Value W : Type}.
Variables (max_attempts : Z) (delay backoff : Q) (exceptions : list ExnClass).
Variable func : Callable Value W.
Variables (args : list Value) (kwargs : list (string * Value)).

(** The [for attempt in range(1, max_attempts + 1)] loop, with the loop
    variables [last_exception] and [current_delay] as accumulators; the
    [return] inside the [try] leaves the loop.  After the loop,
    [raise last_exception]; raising [None] is a [TypeError]. *)
Fixpoint retry_loop (attempts : list Z) (last_exception : option (Exn Value))
    (current_delay : Q) : M Value W unit Value :=
  match attempts with
  | [] =>
      match last_exception with
      | Some e => raise e
      | None => raise (mkExn TypeError (MsgText "exceptions must derive from BaseException"))
      end
  | attempt :: rest =>
      fun s =>
        match invoke func args kwargs s with
        | (Return v, s') => (Return v, s')
        | (Raise e, s') =>
            if isinstance e exceptions then
              (if attempt <? max_attempts then
                 time_sleep current_delay >>
                 retry_loop rest (Some e) (current_delay * backoff)%Q
               else
                 retry_loop rest (Some e) current_delay) s'
            else (Raise e, s')
        end
  end.

Definition retry_wrapper : M Value W unit Value :=
  retry_loop (py_range 1 (max_attempts + 1)) None delay.

End Retry.

(** ** [cache] (lines 150-187) *)

Section Cache.
Context {Value W : Type}.

(** [repr] of a value and of a parameter name (a [str]); the text they
    produce is all the cache key depends on. *)
Variables (repr : Value -> string) (repr_str : string -> string).

(** [str(args)] for the tuple of positional arguments *)
Definition str_tuple (args : list Value) : string :=
  match args with
  | [a] => String.append "(" (String.append (repr a) ",)")
  | _ => String.append "(" (String.append (String.concat ", " (map repr args)) ")")
  end.

(** [sorted(items)] on the items of a dictionary.  The names of a
    dictionary are pairwise distinct, so comparing two [(name, value)]
    tuples is decided by the names (strings compare by code point) and
    never looks at the values.  [sorted] is stable: an item goes in front
    of the first item that is not smaller. *)
Fixpoint sorted_insert (x : string * Value) (l : list (string * Value))
    : list (string * Value) :=
  match l with
  | [] => [x]
  | y :: l' => if String.leb (fst x) (fst y) then x :: y :: l'
               else y :: sorted_insert x l'
  end.

Definition sorted (items : list (string * Value)) : list (string * Value) :=
  foldr sorted_insert [] items.

(** [str] of a list of [(name, value)] tuples *)
Definition repr_item (kv : string * Value) : string :=
  String.append "("
    (String.append (repr_str (fst kv))
       (String.append ", " (String.append (repr (snd kv)) ")"))).

Definition str_items (items : list (string * Value)) : string :=
  String.append "[" (String.append (String.concat ", " (map repr_item items)) "]").

(** line 170 *)
Definition make_cache_key (args : list Value) (kwargs : list (string * Value)) : string :=
  String.append (str_tuple args) (str_items (sorted kwargs)).

(** The two dictionaries of the closure. *)
Record CacheState := mkCache {
  cache_store : gmap string Value;
  cache_timestamps : gmap string Q
}.

Definition cache_empty : CacheState := mkCache ∅ ∅.

Variable ttl_seconds : Q.
Variable func : Callable Value W.

(** Lines 173-179: [Some v] is the early [return] of a fresh entry,
    [None] falls through to the call (after deleting a stale entry).
    [cache_timestamps[cache_key]] raises [KeyError] on a missing key. *)
Definition cache_lookup (cache_key : string) (current_time : Q)
    : M Value W CacheState (option Value) :=
  let* st := get_store in
  match cache_store st !! cache_key with
  | Some v =>
      match cache_timestamps st !! cache_key with
      | Some t =>
          if Qltb (current_time - t) ttl_seconds then ret (Some v)
          else
            put_store (mkCache (delete cache_key (cache_store st))
                               (delete cache_key (cache_timestamps st))) >>
            ret None
      | None => raise (mkExn KeyError (MsgKey cache_key))
      end
  | None => ret None
  end.

Definition cache_wrapper (args : list Value) (kwargs : list (string * Value))
    (current_time : Q) : M Value W CacheState Value :=
  let cache_key := make_cache_key args kwargs in
  let* hit := cache_lookup cache_key current_time in
  match hit with
  | Some v => ret v
  | None =>
      let* result := invoke func args kwargs in
      let* st := get_store in
      put_store (mkCache (<[cache_key := result]> (cache_store st))
                         (<[cache_key := current_time]> (cache_timestamps st))) >>
      ret result
  end.

End Cache.

(** ** [rate_limit] (lines 190-226) *)

Section RateLimit.
Context {Value W : Type}.
Variables (max_calls : Z) (period_seconds : Q).
Variable func : Callable Value W.
(** [id(func)] and [func.__name__] *)
Variables (func_id : positive) (func_name : string).

(** The store is the module-level [_rate_limit_storage], a
    [defaultdict(list)] from function identities to call histories:
    reading a missing identity yields (and stores) the empty list.  The
    wrapper rewrites the stored list in place ([call_history[:] = ...],
    [call_history.append]). *)
Definition rate_limit_wrapper (args : list Value) (kwargs : list (string * Value))
    (current_time : Q) : M Value W (gmap positive (list Q)) Value :=
  let* storage := get_store in
  let call_history := default [] (storage !! func_id) in
  let call_history :=
    List.filter (fun t => Qltb (current_time - t) period_seconds) call_history in
  put_store (<[func_id := call_history]> storage) >>
  if max_calls <=? Z.of_nat (length call_history) then
    match call_history with
    | oldest :: _ =>
        let wait_time := (period_seconds - (current_time - oldest))%Q in
        raise (mkExn Exception (MsgRateLimit func_name wait_time))
    | [] => raise (mkExn IndexError (MsgText "list index out of range"))
    end
  else
    put_store (<[func_id := call_history ++ [current_time]]> storage) >>
    invoke func args kwargs.

End RateLimit.

(** ** [validate_input] (lines 229-260) *)

(** A module of the standard library, as far as attribute access goes:
    its name and the names bound in it. *)
Record PyModule := mkModule { module_name : string; module_attrs : list string }.

(** The public names bound in [functools]: its [__all__] and the names
    it imports at top level (its private helpers all start with an
    underscore).  There is no [signature] among them: that function is
    [inspect.signature]. *)
Definition functools : PyModule :=
  mkModule "functools"
    ["update_wrapper"; "wraps"; "WRAPPER_ASSIGNMENTS"; "WRAPPER_UPDATES";
     "total_ordering"; "cache"; "cmp_to_key"; "lru_cache"; "reduce";
     "partial"; "partialmethod"; "singledispatch"; "singledispatchmethod";
     "cached_property"; "get_cache_token"; "namedtuple"; "recursive_repr";
     "RLock"; "GenericAlias"]%string.

(** The module that does define [signature]; [decorators.py] does not
    import it. *)
Definition inspect : PyModule :=
  mkModule "inspect"
    ["signature"; "Signature"; "Parameter"; "BoundArguments"]%string.

Section ValidateInput.
Context {Value W : Type}.

(** [module.attr]: [AttributeError] when the module binds no such name. *)
Definition module_getattr {S} (m : PyModule) (attr : string) : M Value W S unit :=
  if existsb (String.eqb attr) (module_attrs m) then ret tt
  else raise (mkExn AttributeError (MsgNoAttribute (module_name m) attr)).

(** The signature of the wrapped function: its positional-or-keyword
    parameters in order, each with its default if it has one. *)
Definition Signature : Type := list (string * option Value).

Definition bind_error {A} (reason : string) : Outcome Value A :=
  Raise (mkExn TypeError (MsgBind reason)).

(** [Signature.bind] followed by [apply_defaults]: positional arguments
    fill the parameters from the left, keyword arguments fill the named
    parameter, remaining parameters take their default.  The result is
    [bound_args.arguments], in parameter order. *)
Fixpoint bind_arguments (sig : Signature) (args : list Value)
    (kwargs : list (string * Value)) : Outcome Value (list (string * Value)) :=
  match sig with
  | [] =>
      match args, kwargs with
      | [], [] => Return []
      | _ :: _, _ => bind_error "too many positional arguments"
      | [], (k, _) :: _ => bind_error "got an unexpected keyword argument"
      end
  | (name, dflt) :: sig' =>
      match args with
      | a :: args' =>
          if existsb (fun kv => String.eqb (fst kv) name) kwargs then
            bind_error "multiple values for argument"
          else
            match bind_arguments sig' args' kwargs with
            | Return bound => Return ((name, a) :: bound)
            | Raise e => Raise e
            end
      | [] =>
          let rest := List.filter (fun kv => negb (String.eqb (fst kv) name)) kwargs in
          match List.find (fun kv => String.eqb (fst kv) name) kwargs, dflt with
          | Some (_, v), _ | None, Some v =>
              match bind_arguments sig' [] rest with
              | Return bound => Return ((name, v) :: bound)
              | Raise e => Raise e
              end
          | None, None => bind_error "missing a required argument"
          end
      end
  end.

(** [bound_args.arguments[param_name]], with [None] for
    [param_name not in bound_args.arguments] *)
Definition arguments_get (bound : list (string * Value)) (param_name : string)
    : option Value :=
  snd <$> List.find (fun kv => String.eqb (fst kv) param_name) bound.

Variable validators : list (string * (Value -> bool)).
Variable func : Callable Value W.
Variable func_sig : Signature.

(** The loop of lines 250-256 over [validators.items()]. *)
Fixpoint check_validators {S} (vs : list (string * (Value -> bool)))
    (bound : list (string * Value)) : M Value W S unit :=
  match vs with
  | [] => ret tt
  | (param_name, validator_func) :: vs' =>
      match arguments_get bound param_name with
      | Some value =>
          if validator_func value then check_validators vs' bound
          else raise (mkExn ValueError (MsgValidation param_name value))
      | None => check_validators vs' bound
      end
  end.

(** The wrapper, with the module in which line 246 looks up
    [signature] as a parameter. *)
Definition validate_input_wrapper_in (m : PyModule) (args : list Value)
    (kwargs : list (string * Value)) : M Value W unit Value :=
  module_getattr m "signature" >>
  let* bound_args :=
    (fun s => (bind_arguments func_sig args kwargs, s)) in
  check_validators validators bound_args >>
  invoke func args kwargs.

(** Line 246 reads [functools.signature(func)]. *)
Definition validate_input_wrapper (args : list Value)
    (kwargs : list (string * Value)) : M Value W unit Value :=
  validate_input_wrapper_in functools args kwargs.

End ValidateInput.

(** ** [circuit_breaker] (lines 263-333) *)

Inductive CircuitState := CLOSED | OPEN | HALF_OPEN.

(** The dictionary [storage] of one wrapped function, with its four keys. *)
Record Breaker := mkBreaker {
  state : CircuitState;
  failure_count : Z;
  last_failure_time : Q;
  success_count : Z
}.

(** After the four [setdefault] calls on a fresh dictionary. *)
Definition breaker_init : Breaker := mkBreaker CLOSED 0 0%Q 0.

Definition set_state (x : CircuitState) (b : Breaker) : Breaker :=
  mkBreaker x (failure_count b) (last_failure_time b) (success_count b).
Definition set_failure_count (x : Z) (b : Breaker) : Breaker :=
  mkBreaker (state b) x (last_failure_time b) (success_count b).
Definition set_last_failure_time (x : Q) (b : Breaker) : Breaker :=
  mkBreaker (state b) (failure_count b) x (success_count b).
Definition set_success_count (x : Z) (b : Breaker) : Breaker :=
  mkBreaker (state b) (failure_count b) (last_failure_time b) x.

Section CircuitBreaker.
Context {Value W : Type}.
Variables (failure_threshold : Z) (recovery_timeout : Q) (exceptions : list ExnClass).
Variable func : Callable Value W.
Variable func_name : string.

Definition modify_store {S} (f : S -> S) : M Value W S unit :=
  let* s := get_store in put_store (f s).

(** Lines 296-305; [entry_state] is the local variable [state] of line 294. *)
Definition breaker_gate (entry_state : CircuitState) (current_time : Q)
    : M Value W Breaker unit :=
  match entry_state with
  | OPEN =>
      let* storage := get_store in
      if Qleb recovery_timeout (current_time - last_failure_time storage) then
        modify_store (set_state HALF_OPEN) >>
        modify_store (set_success_count 0)
      else
        let wait_time :=
          (recovery_timeout - (current_time - last_failure_time storage))%Q in
        raise (mkExn Exception (MsgCircuitOpen func_name wait_time))
  | _ => ret tt
  end.

(** Lines 310-318, after the wrapped function returned. *)
Definition breaker_on_success (entry_state : CircuitState) : M Value W Breaker unit :=
  (match entry_state with
   | HALF_OPEN =>
       modify_store (fun b => set_success_count (success_count b + 1) b) >>
       let* storage := get_store in
       if 2 <=? success_count storage then
         modify_store (set_state CLOSED) >>
         modify_store (set_failure_count 0)
       else ret tt
   | _ => ret tt
   end) >>
  match entry_state with
  | CLOSED => modify_store (set_failure_count 0)
  | _ => ret tt
  end.

(** Lines 322-330, the handler of [except exceptions as e]. *)
Definition breaker_on_failure (current_time : Q) (e : Exn Value)
    : M Value W Breaker Value :=
  modify_store (fun b => set_failure_count (failure_count b + 1) b) >>
  modify_store (set_last_failure_time current_time) >>
  let* storage := get_store in
  (if failure_threshold <=? failure_count storage then
     modify_store (set_state OPEN)
   else ret tt) >>
  raise e.

Definition circuit_breaker_wrapper (args : list Value)
    (kwargs : list (string * Value)) (current_time : Q)
    : M Value W Breaker Value :=
  let* storage := get_store in
  let state := state storage in
  breaker_gate state current_time >>
  try_except
    (let* result := invoke func args kwargs in
     breaker_on_success state >>
     ret result)
    exceptions
    (breaker_on_failure current_time).

End CircuitBreaker.

(** ** Vocabulary of the properties *)

Section Runs.
Context {Value W : Type}.

(** One call of a wrapper: its arguments and the clock reading on entry. *)
Record Call := mkCall {
  call_args : list Value;
  call_kwargs : list (string * Value);
  call_time : Q
}.

(** Successive calls of one wrapper, each starting in the state the
    previous one left; the outcomes are collected in call order. *)
Fixpoint run_calls {S}
    (wrapper : list Value -> list (string * Value) -> Q -> M Value W S Value)
    (calls : list Call) (s : S * World W)
    : list (Outcome Value Value) * (S * World W) :=
  match calls with
  | [] => ([], s)
  | c :: rest =>
      let (o, s') := wrapper (call_args c) (call_kwargs c) (call_time c) s in
      let (os, s'') := run_calls wrapper rest s' in
      (o :: os, s'')
  end.

(** The clock readings of the calls of a run that reached the wrapped
    function. *)
Fixpoint accepted_times {S}
    (wrapper : list Value -> list (string * Value) -> Q -> M Value W S Value)
    (calls : list Call) (s : S * World W) : list Q :=
  match calls with
  | [] => []
  | c :: rest =>
      let s' := snd (wrapper (call_args c) (call_kwargs c) (call_time c) s) in
      (if (invocations (snd s') =? invocations (snd s))%nat then []
       else [call_time c])
      ++ accepted_times wrapper rest s'
  end.

(** The same calls made on the wrapped function directly. *)
Fixpoint run_func (func : Callable Value W) (calls : list Call) (u : W)
    : list (Outcome Value Value) * W :=
  match calls with
  | [] => ([], u)
  | c :: rest =>
      let (o, u') := func (call_args c) (call_kwargs c) u in
      let (os, u'') := run_func func rest u' in
      (o :: os, u'')
  end.

(** The user state after [n] invocations with the same arguments. *)
Fixpoint user_after (func : Callable Value W) (args : list Value)
    (kwargs : list (string * Value)) (n : nat) (u : W) : W :=
  match n with
  | O => u
  | Datatypes.S n' => user_after func args kwargs n' (snd (func args kwargs u))
  end.

End Runs.

#[global] Arguments Call : clear implicits.
#[global] Arguments CacheState : clear implicits.
#[global] Arguments cache_empty : clear implicits.

(** No entry under [key], or one that is no longer fresh at [now]. *)
Definition cache_stale {Value : Type} (ttl_seconds : Q) (st : CacheState Value)
    (key : string) (now : Q) : Prop :=
  (cache_store st !! key = None /\ cache_timestamps st !! key = None) \/
  exists v t, cache_store st !! key = Some v /\
              cache_timestamps st !! key = Some t /\ (ttl_seconds <= now - t)%Q.

(** The two dictionaries hold the same keys and no entry was stored
    after [tmax]. *)
Definition cache_consistent {Value : Type} (st : CacheState Value) (tmax : Q) : Prop :=
  forall key,
    match cache_store st !! key, cache_timestamps st !! key with
    | None, None => True
    | Some _, Some t => (t <= tmax)%Q
    | _, _ => False
    end.

(** The order [sorted] puts dictionary items in. *)
Definition key_le {Value : Type} (x y : string * Value) : Prop :=
  String.leb (fst x) (fst y) = true.

(** An outcome that counts as a failure for [except exceptions]. *)
Definition qualifying_failure {Value A : Type} (exceptions : list ExnClass)
    (o : Outcome Value A) : Prop :=
  match o with
  | Raise e => isinstance e exceptions = true
  | Return _ => False
  end.

Definition is_return {Value A : Type} (o : Outcome Value A) : Prop :=
  match o with
  | Return _ => True
  | Raise _ => False
  end.

(** The waits of [n] failed attempts: each is the previous one times
    [backoff], starting from [delay]. *)
Fixpoint backoff_waits (delay backoff : Q) (n : nat) : list Q :=
  match n with
  | O => []
  | Datatypes.S n' => delay :: backoff_waits (delay * backoff)%Q backoff n'
  end.

(** Call times that never go back. *)
Fixpoint nondecreasing (ts : list Q) : Prop :=
  match ts with
  | [] => True
  | t :: rest => Forall (fun t' => (t <= t')%Q) rest /\ nondecreasing rest
  end.

(** Breaker states reachable from the initial storage by calls of the
    wrapper, whatever the arguments, the clock and the user state. *)
Inductive breaker_reachable {Value W : Type} (failure_threshold : Z)
    (recovery_timeout : Q) (exceptions : list ExnClass)
    (func : Callable Value W) (func_name : string) : Breaker -> Prop :=
| reach_init :
    breaker_reachable failure_threshold recovery_timeout exceptions func func_name
      breaker_init
| reach_call b args kwargs current_time w :
    breaker_reachable failure_threshold recovery_timeout exceptions func func_name b ->
    breaker_reachable failure_threshold recovery_timeout exceptions func func_name
      (fst (snd (circuit_breaker_wrapper failure_threshold recovery_timeout exceptions
                   func func_name args kwargs current_time (b, w)))).

(** ** Concrete functions, after [test_decorators.py] *)

Module Demo.

(** Values are Python integers, printed in decimal; the user state counts
    the calls, like [call_count] in the tests.  Names are plain
    identifiers, which [repr] puts between single quotes. *)
Definition repr (v : Z) : string := NilZero.string_of_int (Z.to_int v).
Definition repr_str (s : string) : string :=
  String.append "'" (String.append s "'").

Definition world0 : World nat := mkWorld 0%nat 0%nat [].

(** [cached_function(x)] returns [x * 2] *)
Definition double : Callable Z nat :=
  fun args kwargs u =>
    match args, kwargs with
    | [x], [] | [], [(_, x)] => (Return (x * 2), S u)
    | _, _ => (Raise (mkExn TypeError (MsgBind "bad call")), u)
    end.

(** [failing_function()] raises [ConnectionError("Connection failed")] *)
Definition failing_function : Callable Z nat :=
  fun _ _ u => (Raise (mkExn ConnectionError (MsgText "Connection failed")), S u).

(** A function that raises a plain [Exception] *)
Definition raises_exception : Callable Z nat :=
  fun _ _ u => (Raise (mkExn Exception (MsgText "boom")), S u).

(** [successful_function()] returns a constant *)
Definition successful_function : Callable Z nat :=
  fun _ _ u => (Return 10, S u).

(** [flaky_function()] fails until it has been entered twice *)
Definition flaky_function : Callable Z nat :=
  fun _ _ u =>
    if (u <? 2)%nat
    then (Raise (mkExn ConnectionError (MsgText "Temporary failure")), S u)
    else (Return 10, S u).

(** A function that is itself behind a circuit breaker (threshold 2,
    timeout 0.5 s): its user state is the storage and the world of that
    inner breaker, whose wrapper reads the clock at [now]. *)
Definition protected_service (now : Q) : Callable Z (Breaker * World nat) :=
  fun args kwargs s =>
    circuit_breaker_wrapper 2 (1 # 2) [Exception] failing_function
      "external_service" args kwargs now s.

(** [lambda v: isinstance(v, int) and v > 0] *)
Definition positive_int (v : Z) : bool := 0 <? v.

End Demo.

(** ** [timing_decorator] and [logging_decorator] (lines 18-47, 82-106) *)

Section Instrumentation.
Context {Value W : Type}.

(** What the two decorators hand to [logger], with the interpolated
    values of the message. *)
Inductive LogRecord :=
| InfoExecutionTime (func_name : string) (execution_time : Q)
    (* logger.info: "Tiempo de ejecución de {name}: {execution_time:.4f} segundos" *)
| ErrorAfter (func_name : string) (execution_time : Q) (e : Exn Value)
    (* logger.error: "Error en {name} después de {execution_time:.4f} segundos: {e}" *)
| InfoCalling (func_name : string) (args : list Value) (kwargs : list (string * Value))
    (* logger.info: "Llamando a {name} con argumentos: args={args}, kwargs={kwargs}" *)
| InfoResult (func_name : string) (result : Value)
    (* logger.info: "Resultado de {name}: {result}" *)
| ErrorIn (func_name : string) (e : Exn Value).
    (* logger.error: "Error en {name}: {e}" *)

(** The store of an instrumentation wrapper is the list of the records
    it has emitted itself, oldest first. *)
Definition emit (r : LogRecord) : M Value W (list LogRecord) unit :=
  let* records := get_store in put_store (records ++ [r]).

Variable func : Callable Value W.
Variable func_name : string.

(** [start_time] and [end_time] are the two readings of [time.time()],
    before the call and after it. *)
Definition timing_wrapper (args : list Value) (kwargs : list (string * Value))
    (start_time end_time : Q) : M Value W (list LogRecord) Value :=
  try_except
    (let* result := invoke func args kwargs in
     let execution_time := (end_time - start_time)%Q in
     emit (InfoExecutionTime func_name execution_time) >>
     ret result)
    [Exception]
    (fun e =>
       let execution_time := (end_time - start_time)%Q in
       emit (ErrorAfter func_name execution_time e) >>
       raise e).

Definition logging_wrapper (args : list Value) (kwargs : list (string * Value))
    : M Value W (list LogRecord) Value :=
  emit (InfoCalling func_name args kwargs) >>
  try_except
    (let* result := invoke func args kwargs in
     emit (InfoResult func_name result) >>
     ret result)
    [Exception]
    (fun e => emit (ErrorIn func_name e) >> raise e).

End Instrumentation.

#[global] Arguments LogRecord : clear implicits.

(** ** Decorators on top of decorators

    A wrapper applied to a wrapper: the store and the world of the inner
    wrapper are the user state of the outer one. *)

Section Stacking.
Context {Value W : Type}.

(** An inner wrapper that reads the clock on each of its calls:
    [clock n] is the reading of its [n]-th call, and the user state
    counts the calls. *)
Definition with_clock {S : Type} (clock : nat -> Q)
    (wrapper : list Value -> list (string * Value) -> Q -> M Value W S Value)
    : Callable Value (nat * (S * World W)) :=
  fun args kwargs us =>
    let (o, s') := wrapper args kwargs (clock (fst us)) (snd us) in
    (o, (Datatypes.S (fst us), s')).


(** [unreliable_service] (lines 350-356): [retry(max_attempts=3, delay=0.5)]
    around [rate_limit(max_calls=3, period_seconds=10)] around the body. *)
Definition unreliable_service (clock : nat -> Q) (func : Callable Value W)
    (func_id : positive)
    : M Value (nat * (gmap positive (list Q) * World W)) unit Value :=
  retry_wrapper 3 (1 # 2) 2 [Exception]
    (with_clock clock (rate_limit_wrapper 3 10 func func_id "unreliable_service"))
    [] [].

(** [get_user] of [api_example.py] (lines 20-32): [timing_decorator]
    around [logging_decorator] around [cache(ttl_seconds=30)] around the
    body; [cache_time] is the clock reading of the cache wrapper. *)
Definition get_user (repr : Value -> string) (repr_str : string -> string)
    (func : Callable Value W) (args : list Value) (kwargs : list (string * Value))
    (start_time cache_time end_time : Q)
    : M Value (list (LogRecord Value) * World (CacheState Value * World W))
        (list (LogRecord Value)) Value :=
  timing_wrapper
    (logging_wrapper
       (fun a k => cache_wrapper repr repr_str 30 func a k cache_time) "get_user")
    "get_user" args kwargs start_time end_time.

(** [process_data] of [api_example.py] (lines 66-72), under its
    [timing_decorator]: the body calls [process_user_data], a function
    decorated with [validate_input], and turns a [ValueError] into an
    [HTTPException] with status 400.  [HTTPException] is a class of the
    web framework; [http_400 e] stands for the exception built from [e]. *)
Definition process_data_body (http_400 : Exn Value -> Exn Value)
    (validators : list (string * (Value -> bool)))
    (process_user_data : Callable Value W) (func_sig : Signature)
    : Callable Value (unit * World W) :=
  fun args kwargs =>
    try_except
      (validate_input_wrapper validators process_user_data func_sig args kwargs)
      [ValueError]
      (fun e => raise (http_400 e)).

Definition process_data (http_400 : Exn Value -> Exn Value)
    (validators : list (string * (Value -> bool)))
    (process_user_data : Callable Value W) (func_sig : Signature)
    (args : list Value) (kwargs : list (string * Value)) (start_time end_time : Q)
    : M Value (unit * World W) (list (LogRecord Value)) Value :=
  timing_wrapper (process_data_body http_400 validators process_user_data func_sig)
    "process_data" args kwargs start_time end_time.

End Stacking.

(** The two dictionaries of the cache hold the same keys. *)
Definition cache_in_sync {Value : Type} (st : CacheState Value) : Prop :=
  forall key, is_Some (cache_store st !! key) <-> is_Some (cache_timestamps st !! key).

(** A failure that [except exceptions] lets pass. *)
Definition other_failure {Value A : Type} (exceptions : list ExnClass)
    (o : Outcome Value A) : Prop :=
  match o with
  | Raise e => isinstance e exceptions = false
  | Return _ => False
  end.

(** * Properties *)

(** ** Numbers and ranges *)

Lemma Qltb_lt (x y : Q) : Qltb x y = true <-> (x < y)%Q.
Proof. unfold Qltb, Qlt. apply Z.ltb_lt. Qed.

Lemma Qltb_ge (x y : Q) : Qltb x y = false <-> (y <= x)%Q.
Proof. unfold Qltb, Qle. apply Z.ltb_ge. Qed.

Lemma Qleb_le (x y : Q) : Qleb x y = true <-> (x <= y)%Q.
Proof. unfold Qleb, Qle. apply Z.leb_le. Qed.

Lemma Qleb_gt (x y : Q) : Qleb x y = false <-> (y < x)%Q.
Proof. unfold Qleb, Qlt. apply Z.leb_gt. Qed.

Lemma py_range_nil (lo hi : Z) : hi <= lo -> py_range lo hi = [].
Proof.
  intros H. unfold py_range.
  replace (Z.to_nat (hi - lo)) with 0%nat by lia. reflexivity.
Qed.

Lemma py_range_cons (lo hi : Z) :
  lo < hi -> py_range lo hi = lo :: py_range (lo + 1) hi.
Proof.
  intros H. unfold py_range.
  replace (Z.to_nat (hi - lo)) with (S (Z.to_nat (hi - (lo + 1)))) by lia.
  cbn [seq map]. f_equal; [lia|].
  rewrite <- seq_shift, map_map.
  apply map_ext. intros i. lia.
Qed.

Lemma last_nonempty_default {A : Type} (x : A) (l : list A) (d d' : A) :
  List.last (x :: l) d = List.last (x :: l) d'.
Proof.
  revert x. induction l as [|y l IH]; intros x; [done|].
  change (List.last (y :: l) d = List.last (y :: l) d'). apply IH.
Qed.

Lemma py_range_length (lo hi : Z) : length (py_range lo hi) = Z.to_nat (hi - lo).
Proof. unfold py_range. by rewrite length_map, length_seq. Qed.

(** ** [retry] *)

Lemma backoff_waits_length (d b : Q) (n : nat) : length (backoff_waits d b n) = n.
Proof. revert d. induction n as [|n IH]; intros d; cbn; [done|]. by rewrite IH. Qed.

Lemma backoff_waits_nth (n : nat) :
  forall (d b : Q) (k : nat), (k < n)%nat ->
    exists q, backoff_waits d b n !! k = Some q /\ (q == d * b ^ Z.of_nat k)%Q.
Proof.
  induction n as [|n IH]; intros d b k Hk; [lia|].
  destruct k as [|k]; cbn [backoff_waits].
  - exists d. split; [done|].
    change (Z.of_nat 0) with 0. simpl Qpower. ring.
  - destruct (IH (d * b)%Q b k ltac:(lia)) as (q & Hq & Heq).
    exists q. split; [exact Hq|].
    rewrite Heq. rewrite Nat2Z.inj_succ, <- Z.add_1_r.
    rewrite Qpower_plus' by lia. simpl (b ^ 1)%Q. ring.
Qed.

Section RetryFacts.
Context {Value W : Type}.
Variables (max_attempts : Z) (delay backoff : Q) (exceptions : list ExnClass).
Variable func : Callable Value W.
Variables (args : list Value) (kwargs : list (string * Value)).

Hypothesis backoff_nonneg : (0 <= backoff)%Q.
Hypothesis always_fails :
  forall u, exists e u', func args kwargs u = (Raise e, u') /\
                         isinstance e exceptions = true.

(** The loop from attempt [a] on, when all of the [k + 1] attempts left fail. *)
Lemma retry_loop_exhausted (k : nat) :
  forall (a : Z) (last : option (Exn Value)) (d : Q) (w : World W),
    a + Z.of_nat k = max_attempts -> (0 <= d)%Q ->
    exists e w',
      retry_loop max_attempts backoff exceptions func args kwargs
        (py_range a (max_attempts + 1)) last d (tt, w) = (Raise e, (tt, w')) /\
      invocations w' = (invocations w + S k)%nat /\
      sleeps w' = sleeps w ++ backoff_waits d backoff k /\
      func args kwargs (user_after func args kwargs k (user w)) = (Raise e, user w').
Proof.
  induction k as [|k IH]; intros a last d w Ha Hd.
  - rewrite py_range_cons by lia. rewrite py_range_nil by lia.
    destruct (always_fails (user w)) as (e & u' & Hf & He).
    exists e, (mkWorld u' (S (invocations w)) (sleeps w)).
    cbn. unfold invoke. cbn. rewrite Hf, He.
    replace (a <? max_attempts) with false by (symmetry; apply Z.ltb_ge; lia).
    cbn. repeat split; [lia | by rewrite app_nil_r].
  - rewrite py_range_cons by lia.
    destruct (always_fails (user w)) as (e & u' & Hf & He).
    set (w1 := mkWorld u' (S (invocations w)) (sleeps w ++ [d])).
    destruct (IH (a + 1) (Some e) (d * backoff)%Q w1) as (e' & w' & Hrun & Hinv & Hsl & Hlast).
    { lia. }
    { apply Qmult_le_0_compat; assumption. }
    exists e', w'.
    cbn [retry_loop]. unfold invoke at 1. cbn [snd fst]. rewrite Hf, He.
    replace (a <? max_attempts) with true by (symmetry; apply Z.ltb_lt; lia).
    unfold bind at 1, time_sleep at 1.
    replace (Qltb d 0) with false by (symmetry; by apply Qltb_ge).
    subst w1. cbn [snd fst user invocations sleeps] in *. rewrite Hrun.
    repeat split.
    + rewrite Hinv. lia.
    + rewrite Hsl. cbn [backoff_waits]. by rewrite <- app_assoc.
    + cbn [user_after]. rewrite Hf. cbn [snd]. exact Hlast.
Qed.

End RetryFacts.

(** ** [cache] *)

Section CacheFacts.
Context {Value W : Type}.
Variables (repr : Value -> string) (repr_str : string -> string).
Variable ttl_seconds : Q.
Variable func : Callable Value W.

(** A fresh entry is returned; neither the dictionaries nor the world change. *)
Lemma cache_wrapper_hit (args : list Value) (kwargs : list (string * Value))
    (now t : Q) (v : Value) (st : CacheState Value) (w : World W) :
  cache_store st !! make_cache_key repr repr_str args kwargs = Some v ->
  cache_timestamps st !! make_cache_key repr repr_str args kwargs = Some t ->
  (now - t < ttl_seconds)%Q ->
  cache_wrapper repr repr_str ttl_seconds func args kwargs now (st, w)
  = (Return v, (st, w)).
Proof.
  intros Hs Ht Hfresh.
  unfold cache_wrapper, cache_lookup, bind, get_store. cbn [fst snd].
  rewrite Hs, Ht.
  apply Qltb_lt in Hfresh. rewrite Hfresh. reflexivity.
Qed.

(** Otherwise the wrapped function runs; its value is stored under the
    key with the clock reading of this call, its exception leaves the key
    without entry. *)
Lemma cache_wrapper_miss (args : list Value) (kwargs : list (string * Value))
    (now : Q) (st : CacheState Value) (w : World W) :
  cache_stale ttl_seconds st (make_cache_key repr repr_str args kwargs) now ->
  cache_wrapper repr repr_str ttl_seconds func args kwargs now (st, w)
  = let key := make_cache_key repr repr_str args kwargs in
    let w' := mkWorld (snd (func args kwargs (user w))) (S (invocations w)) (sleeps w) in
    match fst (func args kwargs (user w)) with
    | Return r =>
        (Return r, (mkCache (<[key := r]> (cache_store st))
                            (<[key := now]> (cache_timestamps st)), w'))
    | Raise e =>
        (Raise e, (mkCache (delete key (cache_store st))
                           (delete key (cache_timestamps st)), w'))
    end.
Proof.
  intros [[Hnone Hnone'] | (v & t & Hs & Ht & Hold)];
    unfold cache_wrapper, cache_lookup, bind, get_store, put_store, ret, invoke;
    cbn [fst snd].
  - rewrite Hnone. cbn [fst snd].
    destruct (func args kwargs (user w)) as [[r|e] u']; cbn [fst snd cache_store cache_timestamps].
    + reflexivity.
    + rewrite !delete_id by assumption. by destruct st.
  - rewrite Hs, Ht.
    apply Qltb_ge in Hold. rewrite Hold. cbn [fst snd].
    destruct (func args kwargs (user w)) as [[r|e] u']; cbn [fst snd cache_store cache_timestamps].
    + by rewrite !insert_delete_eq.
    + reflexivity.
Qed.

(** *** The cache key does not depend on the order of the keyword arguments *)

Lemma string_leb_trans (a : string) :
  forall b c, String.leb a b = true -> String.leb b c = true -> String.leb a c = true.
Proof.
  induction a as [|x a IH]; intros [|y b] [|z c]; unfold String.leb; cbn;
    try done.
  unfold Ascii.compare.
  destruct (N.compare_spec (Ascii.N_of_ascii x) (Ascii.N_of_ascii y)) as [Hxy|Hxy|Hxy];
    destruct (N.compare_spec (Ascii.N_of_ascii y) (Ascii.N_of_ascii z)) as [Hyz|Hyz|Hyz];
    destruct (N.compare_spec (Ascii.N_of_ascii x) (Ascii.N_of_ascii z)) as [Hxz|Hxz|Hxz];
    try done; try lia.
  apply IH.
Qed.

Lemma sorted_insert_Permutation (x : string * Value) (l : list (string * Value)) :
  sorted_insert x l ≡ₚ x :: l.
Proof.
  induction l as [|y l IH]; cbn; [done|].
  destruct (String.leb x.1 y.1); [done|].
  rewrite IH. apply Permutation_swap.
Qed.

Lemma sorted_Permutation (l : list (string * Value)) : sorted l ≡ₚ l.
Proof.
  induction l as [|x l IH]; cbn; [done|].
  by rewrite sorted_insert_Permutation, IH.
Qed.

Lemma sorted_insert_StronglySorted (x : string * Value) (l : list (string * Value)) :
  StronglySorted key_le l -> StronglySorted key_le (sorted_insert x l).
Proof.
  induction 1 as [|y l Hl IH Hy]; cbn.
  - repeat constructor.
  - destruct (String.leb x.1 y.1) eqn:Hxy.
    + constructor; [by constructor|].
      constructor; [exact Hxy|].
      eapply Forall_impl; [exact Hy|].
      intros z Hz. eapply string_leb_trans; [exact Hxy | exact Hz].
    + constructor; [exact IH|].
      rewrite sorted_insert_Permutation. constructor; [|exact Hy].
      destruct (String.leb_total x.1 y.1) as [H|H]; [congruence | exact H].
Qed.

Lemma sorted_StronglySorted (l : list (string * Value)) :
  StronglySorted key_le (sorted l).
Proof.
  induction l as [|x l IH]; cbn; [constructor|].
  by apply sorted_insert_StronglySorted.
Qed.

(** Items of one dictionary with the same name are the same item. *)
Lemma NoDup_fst_inj (l : list (string * Value)) (x y : string * Value) :
  NoDup (map fst l) -> x ∈ l -> y ∈ l -> x.1 = y.1 -> x = y.
Proof.
  induction l as [|z l IH]; intros Hnd Hx Hy Heq; [by inv Hx|].
  cbn in Hnd. apply NoDup_cons in Hnd as [Hz Hnd].
  inv Hx; inv Hy.
  - done.
  - exfalso. apply Hz. rewrite Heq. by apply (list_elem_of_fmap_2 fst).
  - exfalso. apply Hz. rewrite <- Heq. by apply (list_elem_of_fmap_2 fst).
  - by apply IH.
Qed.

Lemma sorted_permutation_invariant (l1 l2 : list (string * Value)) :
  NoDup (map fst l1) -> l1 ≡ₚ l2 -> sorted l1 = sorted l2.
Proof.
  intros Hnd Hperm.
  apply (StronglySorted_unique_strong key_le);
    [| apply sorted_StronglySorted | apply sorted_StronglySorted
     | by rewrite !sorted_Permutation].
  intros x1 x2 H1 H2 H12 H21.
  rewrite sorted_Permutation in H1. rewrite sorted_Permutation, <- Hperm in H2.
  eapply NoDup_fst_inj; [exact Hnd | done | done |].
  by apply String.leb_antisym.
Qed.

Lemma make_cache_key_permutation (args : list Value)
    (kwargs1 kwargs2 : list (string * Value)) :
  NoDup (map fst kwargs1) -> kwargs1 ≡ₚ kwargs2 ->
  make_cache_key repr repr_str args kwargs1 = make_cache_key repr repr_str args kwargs2.
Proof.
  intros Hnd Hperm. unfold make_cache_key.
  by rewrite (sorted_permutation_invariant kwargs1 kwargs2).
Qed.

(** *** Runs with a non-positive time to live *)

Lemma cache_consistent_stale (st : CacheState Value) (tmax now : Q) (key : string) :
  cache_consistent st tmax -> (tmax <= now)%Q -> (ttl_seconds <= 0)%Q ->
  cache_stale ttl_seconds st key now.
Proof.
  intros Hc Hnow Httl. specialize (Hc key). unfold cache_stale.
  destruct (cache_store st !! key) as [v|], (cache_timestamps st !! key) as [t|];
    try done; [|by left].
  right. exists v, t. repeat split; try done. lra.
Qed.

Lemma cache_consistent_step (args : list Value) (kwargs : list (string * Value))
    (st : CacheState Value) (w : World W) (tmax now : Q) :
  cache_consistent st tmax -> (tmax <= now)%Q ->
  cache_stale ttl_seconds st (make_cache_key repr repr_str args kwargs) now ->
  cache_consistent
    (fst (snd (cache_wrapper repr repr_str ttl_seconds func args kwargs now (st, w))))
    now.
Proof.
  intros Hc Hnow Hstale. rewrite cache_wrapper_miss by exact Hstale. cbn zeta.
  destruct (fst (func args kwargs (user w))) as [r|e]; cbn [fst snd];
    intros key; specialize (Hc key); cbn [cache_store cache_timestamps].
  - destruct (decide (make_cache_key repr repr_str args kwargs = key)) as [->|Hne].
    + rewrite !lookup_insert_eq. lra.
    + rewrite !lookup_insert_ne by exact Hne.
      destruct (cache_store st !! key), (cache_timestamps st !! key); try done. lra.
  - destruct (decide (make_cache_key repr repr_str args kwargs = key)) as [->|Hne].
    + by rewrite !lookup_delete_eq.
    + rewrite !lookup_delete_ne by exact Hne.
      destruct (cache_store st !! key), (cache_timestamps st !! key); try done. lra.
Qed.

Lemma cache_run_recomputes (calls : list (Call Value)) :
  forall (st : CacheState Value) (w : World W) (tmax : Q),
    (ttl_seconds <= 0)%Q ->
    cache_consistent st tmax ->
    Forall (fun t => (tmax <= t)%Q) (map call_time calls) ->
    nondecreasing (map call_time calls) ->
    fst (run_calls (cache_wrapper repr repr_str ttl_seconds func) calls (st, w))
    = fst (run_func func calls (user w)) /\
    invocations (snd (snd (run_calls (cache_wrapper repr repr_str ttl_seconds func)
                             calls (st, w))))
    = (invocations w + length calls)%nat.
Proof.
  induction calls as [|c calls IH]; intros st w tmax Httl Hc Hall Hmono.
  - cbn. split; [done | lia].
  - cbn in Hall, Hmono. apply Forall_cons in Hall as [Hc0 Hall].
    destruct Hmono as [Hnext Hmono].
    pose proof (cache_consistent_stale st tmax (call_time c)
                  (make_cache_key repr repr_str (call_args c) (call_kwargs c))
                  Hc Hc0 Httl) as Hstale.
    pose proof (cache_consistent_step (call_args c) (call_kwargs c) st w tmax
                  (call_time c) Hc Hc0 Hstale) as Hc'.
    cbn [run_calls run_func].
    rewrite cache_wrapper_miss in Hc' |- * by exact Hstale. cbn zeta in Hc' |- *.
    destruct (func (call_args c) (call_kwargs c) (user w)) as [o u'].
    cbn [fst snd] in Hc' |- *.
    destruct o as [r|e]; cbn [fst snd] in Hc' |- *.
    all: match goal with
         | |- context [run_calls ?wr ?cs (?st', ?w')] =>
             destruct (IH st' w' (call_time c) Httl Hc' Hnext Hmono) as [Ho Hi];
             destruct (run_calls wr cs (st', w')) as [os s''] eqn:Hrun
         end.
    all: cbn [fst snd user invocations] in *.
    all: destruct (run_func func calls u') as [os' u'']; cbn [fst snd] in *.
    all: split; [by rewrite Ho | rewrite Hi; cbn; lia].
Qed.

End CacheFacts.

(** ** The claims about [retry] and [cache] *)

(** C5 (retrier exhaustion).  When every attempt of the wrapped function
    raises an exception of one of the retried classes, the wrapper invokes
    it exactly [max_attempts] times and raises the very exception of the
    last of these invocations; between attempts it slept
    [delay], [delay * backoff], [delay * backoff^2], ..., once after each
    attempt but the last.  ([max_attempts] is at least 1 and the delays
    are durations, that is, not negative.) *)
Theorem retry_exhaustion {Value W : Type}
    (max_attempts : Z) (delay backoff : Q) (exceptions : list ExnClass)
    (func : Callable Value W) (args : list Value) (kwargs : list (string * Value))
    (w : World W) :
  1 <= max_attempts ->
  (0 <= delay)%Q ->
  (0 <= backoff)%Q ->
  (forall u, exists e u', func args kwargs u = (Raise e, u') /\
                          isinstance e exceptions = true) ->
  exists e w',
    retry_wrapper max_attempts delay backoff exceptions func args kwargs (tt, w)
    = (Raise e, (tt, w')) /\
    invocations w' = (invocations w + Z.to_nat max_attempts)%nat /\
    func args kwargs
      (user_after func args kwargs (Z.to_nat max_attempts - 1) (user w))
    = (Raise e, user w') /\
    sleeps w' = sleeps w ++ backoff_waits delay backoff (Z.to_nat max_attempts - 1) /\
    forall k, (k < Z.to_nat max_attempts - 1)%nat ->
      exists q, backoff_waits delay backoff (Z.to_nat max_attempts - 1) !! k = Some q /\
                (q == delay * backoff ^ Z.of_nat k)%Q.
Proof.
  intros Hmax Hdelay Hbackoff Hfails.
  destruct (retry_loop_exhausted max_attempts backoff exceptions func args kwargs
              Hbackoff Hfails (Z.to_nat max_attempts - 1) 1 None delay w)
    as (e & w' & Hrun & Hinv & Hsl & Hlast); [lia | exact Hdelay |].
  exists e, w'. unfold retry_wrapper.
  repeat split; try assumption.
  - rewrite Hinv. lia.
  - intros k Hk. by apply backoff_waits_nth.
Qed.

Lemma retry_exhaustion_witness :
  1 <= 3 /\ (0 <= 1 # 10)%Q /\ (0 <= 2)%Q /\
  exists e w',
    retry_wrapper 3 (1 # 10) 2 [Exception] Demo.failing_function [] [] (tt, Demo.world0)
    = (Raise e, (tt, w')) /\
    invocations w' = 3%nat /\
    exn_class e = ConnectionError.
Proof.
  assert (H1 : 1 <= 3) by lia.
  assert (H2 : (0 <= 1 # 10)%Q) by (vm_compute; discriminate).
  assert (H3 : (0 <= 2)%Q) by (vm_compute; discriminate).
  assert (H4 : forall u : nat, exists e u',
             Demo.failing_function [] [] u = (Raise e, u') /\
             isinstance e [Exception] = true).
  { intros u. eexists _, _. split; reflexivity. }
  repeat split; try assumption.
  destruct (retry_exhaustion 3 (1 # 10) 2 [Exception] Demo.failing_function [] []
              Demo.world0 H1 H2 H3 H4) as (e & w' & Hrun & Hinv & Hlast & _).
  exists e, w'. repeat split; try assumption.
  cbn in Hlast. by inversion Hlast.
Defined.

(** C6 (cache hit and expiry).  A call that finds no fresh entry for its
    arguments and whose wrapped function returns [v] stores [v] with the
    clock reading [t0] of that call.  A second call with the same
    arguments less than [ttl_seconds] later returns [v] and changes
    nothing, so the two calls invoked the wrapped function once.  A call
    with the same arguments when [ttl_seconds] or more have passed since
    [t0] invokes the wrapped function again, and a value it returns
    replaces the entry, with the clock reading of the later call.  (This
    holds for every [ttl_seconds], positive or not.) *)
Theorem cache_hit_and_expiry {Value W : Type}
    (repr : Value -> string) (repr_str : string -> string) (ttl_seconds : Q)
    (func : Callable Value W) (args : list Value) (kwargs : list (string * Value))
    (st : CacheState Value) (w : World W) (t0 t1 t2 : Q) (v : Value) (u1 : W) :
  cache_stale ttl_seconds st (make_cache_key repr repr_str args kwargs) t0 ->
  func args kwargs (user w) = (Return v, u1) ->
  (t1 - t0 < ttl_seconds)%Q ->
  (ttl_seconds <= t2 - t0)%Q ->
  exists s1,
    cache_wrapper repr repr_str ttl_seconds func args kwargs t0 (st, w) = (Return v, s1) /\
    invocations (snd s1) = S (invocations w) /\
    cache_store (fst s1) !! make_cache_key repr repr_str args kwargs = Some v /\
    cache_timestamps (fst s1) !! make_cache_key repr repr_str args kwargs = Some t0 /\
    cache_wrapper repr repr_str ttl_seconds func args kwargs t1 s1 = (Return v, s1) /\
    invocations (snd (snd (cache_wrapper repr repr_str ttl_seconds func args kwargs t2 s1)))
    = S (invocations (snd s1)) /\
    forall v' u2, func args kwargs (user (snd s1)) = (Return v', u2) ->
      exists s2,
        cache_wrapper repr repr_str ttl_seconds func args kwargs t2 s1 = (Return v', s2) /\
        cache_store (fst s2) !! make_cache_key repr repr_str args kwargs = Some v' /\
        cache_timestamps (fst s2) !! make_cache_key repr repr_str args kwargs = Some t2.
Proof.
  intros Hstale Hfunc Hwithin Hafter.
  eexists. split.
  { rewrite cache_wrapper_miss by exact Hstale. cbn zeta. rewrite Hfunc. reflexivity. }
  cbn [fst snd invocations user cache_store cache_timestamps].
  assert (Hstale2 : cache_stale ttl_seconds
            (mkCache (<[make_cache_key repr repr_str args kwargs := v]> (cache_store st))
                     (<[make_cache_key repr repr_str args kwargs := t0]> (cache_timestamps st)))
            (make_cache_key repr repr_str args kwargs) t2).
  { right. exists v, t0. cbn. by rewrite !lookup_insert_eq. }
  split; [done|]. split; [apply lookup_insert_eq|]. split; [apply lookup_insert_eq|].
  split.
  { eapply cache_wrapper_hit; cbn; [apply lookup_insert_eq | apply lookup_insert_eq | done]. }
  split.
  { rewrite cache_wrapper_miss by exact Hstale2. cbn zeta. cbn [user invocations].
    by destruct (func args kwargs u1) as [[r|e] u2]. }
  intros v' u2 Hfunc2. eexists. split.
  { rewrite cache_wrapper_miss by exact Hstale2. cbn zeta.
    cbn [user]. rewrite Hfunc2. reflexivity. }
  cbn [fst cache_store cache_timestamps]. by rewrite !lookup_insert_eq.
Qed.

Lemma cache_hit_and_expiry_witness :
  cache_stale 60 (cache_empty Z)
    (make_cache_key Demo.repr Demo.repr_str [5] []) 0 /\
  Demo.double [5] [] (user Demo.world0) = (Return 10, 1%nat) /\
  (1 - 0 < 60)%Q /\ (60 <= 61 - 0)%Q /\
  exists s1,
    cache_wrapper Demo.repr Demo.repr_str 60 Demo.double [5] [] 0
      (cache_empty Z, Demo.world0) = (Return 10, s1) /\
    invocations (snd s1) = 1%nat /\
    cache_wrapper Demo.repr Demo.repr_str 60 Demo.double [5] [] 1 s1 = (Return 10, s1) /\
    invocations (snd (snd (cache_wrapper Demo.repr Demo.repr_str 60 Demo.double
                             [5] [] 61 s1))) = 2%nat.
Proof.
  assert (H1 : cache_stale 60 (cache_empty Z)
                 (make_cache_key Demo.repr Demo.repr_str [5] []) 0).
  { left. split; apply lookup_empty. }
  assert (H2 : Demo.double [5] [] (user Demo.world0) = (Return 10, 1%nat))
    by reflexivity.
  assert (H3 : (1 - 0 < 60)%Q) by reflexivity.
  assert (H4 : (60 <= 61 - 0)%Q) by (vm_compute; discriminate).
  repeat split; try assumption.
  destruct (cache_hit_and_expiry Demo.repr Demo.repr_str 60 Demo.double [5] []
              (cache_empty Z) Demo.world0 0 1 61 10 1%nat H1 H2 H3 H4)
    as (s1 & Hfirst & Hinv & _ & _ & Hsecond & Hthird & _).
  exists s1. rewrite Hthird, Hinv. by repeat split.
Defined.

(** C8 (keyword order).  Two calls with the same positional arguments
    whose keyword arguments are the same name-to-value mapping written in
    different orders derive the same cache key; so when the first one
    stored a value, the second one, made less than [ttl_seconds] later,
    returns that value without invoking the wrapped function. *)
Theorem cache_keyword_order_independent {Value W : Type}
    (repr : Value -> string) (repr_str : string -> string) (ttl_seconds : Q)
    (func : Callable Value W) (args : list Value)
    (kwargs1 kwargs2 : list (string * Value))
    (st : CacheState Value) (w : World W) (t0 t1 : Q) (v : Value) (u1 : W) :
  NoDup (map fst kwargs1) ->
  Permutation kwargs1 kwargs2 ->
  cache_stale ttl_seconds st (make_cache_key repr repr_str args kwargs1) t0 ->
  func args kwargs1 (user w) = (Return v, u1) ->
  (t1 - t0 < ttl_seconds)%Q ->
  make_cache_key repr repr_str args kwargs1 = make_cache_key repr repr_str args kwargs2 /\
  exists s1,
    cache_wrapper repr repr_str ttl_seconds func args kwargs1 t0 (st, w) = (Return v, s1) /\
    cache_wrapper repr repr_str ttl_seconds func args kwargs2 t1 s1 = (Return v, s1).
Proof.
  intros Hnd Hperm Hstale Hfunc Hwithin.
  pose proof (make_cache_key_permutation repr repr_str args kwargs1 kwargs2 Hnd Hperm)
    as Hkey.
  split; [exact Hkey|].
  eexists. split.
  { rewrite cache_wrapper_miss by exact Hstale. cbn zeta. rewrite Hfunc. reflexivity. }
  eapply cache_wrapper_hit; cbn [cache_store cache_timestamps];
    [rewrite <- Hkey; apply lookup_insert_eq
    | rewrite <- Hkey; apply lookup_insert_eq | done].
Qed.

Lemma cache_keyword_order_independent_witness :
  NoDup (map fst [("a"%string, 5); ("b"%string, 10)]) /\
  Permutation [("a"%string, 5); ("b"%string, 10)] [("b"%string, 10); ("a"%string, 5)] /\
  make_cache_key Demo.repr Demo.repr_str [] [("a"%string, 5); ("b"%string, 10)]
  = make_cache_key Demo.repr Demo.repr_str [] [("b"%string, 10); ("a"%string, 5)] /\
  exists s1,
    cache_wrapper Demo.repr Demo.repr_str 60 Demo.successful_function []
      [("a"%string, 5); ("b"%string, 10)] 0 (cache_empty Z, Demo.world0) = (Return 10, s1) /\
    cache_wrapper Demo.repr Demo.repr_str 60 Demo.successful_function []
      [("b"%string, 10); ("a"%string, 5)] 1 s1 = (Return 10, s1).
Proof.
  assert (H1 : NoDup (map fst [("a"%string, 5); ("b"%string, 10)])).
  { cbn. repeat constructor; rewrite ?list_elem_of_In; cbn; intuition discriminate. }
  assert (H2 : Permutation [("a"%string, 5); ("b"%string, 10)]
                           [("b"%string, 10); ("a"%string, 5)])
    by apply perm_swap.
  assert (H3 : cache_stale 60 (cache_empty Z)
                 (make_cache_key Demo.repr Demo.repr_str []
                    [("a"%string, 5); ("b"%string, 10)]) 0).
  { left. split; apply lookup_empty. }
  assert (H4 : Demo.successful_function [] [("a"%string, 5); ("b"%string, 10)]
                 (user Demo.world0) = (Return 10, 1%nat)) by reflexivity.
  assert (H5 : (1 - 0 < 60)%Q) by reflexivity.
  split; [exact H1|]. split; [exact H2|].
  exact (cache_keyword_order_independent Demo.repr Demo.repr_str 60
           Demo.successful_function [] _ _ (cache_empty Z) Demo.world0 0 1 10 1%nat
           H1 H2 H3 H4 H5).
Defined.

(** C9 (non-positive time to live).  With [ttl_seconds <= 0] and a clock
    that never goes back (so that no stored entry has a negative age),
    every call of the wrapper, starting from the empty cache, invokes the
    wrapped function: the outcomes are those of calling the function
    directly and the number of invocations is the number of calls. *)
Theorem cache_nonpositive_ttl_recomputes {Value W : Type}
    (repr : Value -> string) (repr_str : string -> string) (ttl_seconds : Q)
    (func : Callable Value W) (calls : list (Call Value)) (w : World W) :
  (ttl_seconds <= 0)%Q ->
  nondecreasing (map call_time calls) ->
  fst (run_calls (cache_wrapper repr repr_str ttl_seconds func) calls
         (cache_empty Value, w))
  = fst (run_func func calls (user w)) /\
  invocations (snd (snd (run_calls (cache_wrapper repr repr_str ttl_seconds func) calls
                           (cache_empty Value, w))))
  = (invocations w + length calls)%nat.
Proof.
  intros Httl Hmono.
  destruct calls as [|c calls]; [cbn; split; [done | lia]|].
  apply (cache_run_recomputes repr repr_str ttl_seconds func (c :: calls)
           (cache_empty Value) w (call_time c)); try assumption.
  - intros key. cbn. by rewrite !lookup_empty.
  - cbn in Hmono |- *. destruct Hmono as [Hnext _].
    constructor; [lra | exact Hnext].
Qed.

Lemma cache_nonpositive_ttl_recomputes_witness :
  (0 <= 0)%Q /\
  nondecreasing (map call_time [mkCall [5] [] 0; mkCall [5] [] 0; mkCall [5] [] 1]) /\
  invocations (snd (snd (run_calls (cache_wrapper Demo.repr Demo.repr_str 0 Demo.double)
                           [mkCall [5] [] 0; mkCall [5] [] 0; mkCall [5] [] 1]
                           (cache_empty Z, Demo.world0))))
  = 3%nat.
Proof.
  assert (H1 : (0 <= 0)%Q) by (vm_compute; discriminate).
  assert (H2 : nondecreasing
                 (map call_time [mkCall [5] [] 0; mkCall [5] [] 0; mkCall [5] [] 1])).
  { cbn. repeat split; repeat constructor; vm_compute; discriminate. }
  split; [exact H1|]. split; [exact H2|].
  exact (proj2 (cache_nonpositive_ttl_recomputes Demo.repr Demo.repr_str 0 Demo.double
                  _ Demo.world0 H1 H2)).
Defined.

(** ** [rate_limit] *)

Section RateLimitFacts.
Context {Value W : Type}.
Variables (max_calls : Z) (period_seconds : Q).
Variable func : Callable Value W.
Variables (func_id : positive) (func_name : string).

(** The test of the list comprehension of line 215. *)
#[local] Abbreviation live now := (fun t : Q => Qltb (now - t) period_seconds).
#[local] Abbreviation history storage := (default [] (storage !! func_id)).
#[local] Abbreviation wrapper :=
  (rate_limit_wrapper max_calls period_seconds func func_id func_name).

(** Below the limit: the clock reading is appended to the pruned history
    and the wrapped function runs. *)
Lemma rate_limit_accepts (args : list Value) (kwargs : list (string * Value)) (now : Q)
    (storage : gmap positive (list Q)) (w : World W) :
  Z.of_nat (length (List.filter (live now) (history storage))) < max_calls ->
  wrapper args kwargs now (storage, w)
  = (fst (func args kwargs (user w)),
     (<[func_id := List.filter (live now) (history storage) ++ [now]]> storage,
      mkWorld (snd (func args kwargs (user w))) (S (invocations w)) (sleeps w))).
Proof.
  intros Hlt. unfold rate_limit_wrapper, bind, get_store, put_store, invoke.
  cbn [fst snd].
  replace (max_calls <=? _) with false by (symmetry; apply Z.leb_gt; lia).
  cbn [fst snd]. by destruct (func args kwargs (user w)).
Qed.

(** At the limit: the exception is raised with the wait computed from the
    first entry of the pruned history; the pruned history is what stays
    stored and the wrapped function does not run. *)
Lemma rate_limit_rejects (args : list Value) (kwargs : list (string * Value)) (now : Q)
    (storage : gmap positive (list Q)) (w : World W) (oldest : Q) (others : list Q) :
  List.filter (live now) (history storage) = oldest :: others ->
  max_calls <= Z.of_nat (length (oldest :: others)) ->
  wrapper args kwargs now (storage, w)
  = (Raise (mkExn Exception
              (MsgRateLimit func_name (period_seconds - (now - oldest))%Q)),
     (<[func_id := oldest :: others]> storage, w)).
Proof.
  intros Hhist Hge. unfold rate_limit_wrapper, bind, get_store, put_store, raise.
  cbn [fst snd]. rewrite Hhist.
  replace (max_calls <=? _) with true by (symmetry; by apply Z.leb_le).
  reflexivity.
Qed.

(** With a limit of zero or less and nothing left in the pruned history,
    line 218 indexes an empty list. *)
Lemma rate_limit_no_capacity (args : list Value) (kwargs : list (string * Value))
    (now : Q) (storage : gmap positive (list Q)) (w : World W) :
  max_calls <= 0 ->
  List.filter (live now) (history storage) = [] ->
  wrapper args kwargs now (storage, w)
  = (Raise (mkExn IndexError (MsgText "list index out of range")),
     (<[func_id := []]> storage, w)).
Proof.
  intros Hmax Hhist. unfold rate_limit_wrapper, bind, get_store, put_store, raise.
  cbn [fst snd]. rewrite Hhist. cbn [length].
  replace (max_calls <=? _) with true by (symmetry; apply Z.leb_le; lia).
  reflexivity.
Qed.

(** The stored history never holds more than [max_calls] clock readings. *)
Lemma rate_limit_history_bounded (args : list Value) (kwargs : list (string * Value))
    (now : Q) (storage : gmap positive (list Q)) (w : World W) :
  0 <= max_calls ->
  Z.of_nat (length (history storage)) <= max_calls ->
  Z.of_nat (length (history (fst (snd (wrapper args kwargs now (storage, w))))))
  <= max_calls.
Proof.
  intros Hmax Hlen.
  pose proof (List.filter_length_le (live now) (history storage)) as Hle.
  destruct (Z.leb_spec max_calls
              (Z.of_nat (length (List.filter (live now) (history storage)))))
    as [Hfull | Hroom].
  - destruct (List.filter (live now) (history storage)) as [|oldest others] eqn:Hf.
    + rewrite rate_limit_no_capacity by (try done; cbn in Hfull; lia).
      cbn [fst snd]. rewrite lookup_insert_eq. cbn. lia.
    + rewrite (rate_limit_rejects _ _ _ _ _ oldest others) by done.
      cbn [fst snd]. rewrite lookup_insert_eq. cbn [default from_option id]. lia.
  - rewrite rate_limit_accepts by exact Hroom.
    cbn [fst snd]. rewrite lookup_insert_eq. cbn [default from_option id].
    rewrite length_app. cbn [length]. lia.
Qed.

Lemma filter_all_live (now : Q) (l : list Q) :
  Forall (fun t => (now - t < period_seconds)%Q) l -> List.filter (live now) l = l.
Proof.
  induction 1 as [|t l Ht _ IH]; cbn; [done|].
  apply Qltb_lt in Ht. by rewrite Ht, IH.
Qed.

Lemma filter_none_live (now : Q) (l : list Q) :
  Forall (fun t => (period_seconds <= now - t)%Q) l -> List.filter (live now) l = [].
Proof.
  induction 1 as [|t l Ht _ IH]; cbn; [done|].
  apply Qltb_ge in Ht. by rewrite Ht, IH.
Qed.

Lemma filter_live_later (tprev now : Q) (l : list Q) :
  (tprev <= now)%Q ->
  List.filter (live now) (List.filter (live tprev) l) = List.filter (live now) l.
Proof.
  intros Hle. induction l as [|t l IH]; cbn; [done|].
  destruct (Qltb (tprev - t) period_seconds) eqn:Hprev; cbn; rewrite IH; [done|].
  replace (Qltb (now - t) period_seconds) with false; [done|].
  symmetry. apply Qltb_ge. apply Qltb_ge in Hprev. lra.
Qed.

(** In a run whose clock readings never go back, the stored history is,
    after every call, the admitted calls of the last [period_seconds]
    seconds, and these are at most [max_calls]. *)
Lemma rate_limit_history_is_window (calls : list (Call Value)) :
  forall (storage : gmap positive (list Q)) (w : World W) (tprev : Q)
         (earlier : list Q),
    (0 < period_seconds)%Q ->
    history storage = List.filter (live tprev) earlier ->
    Z.of_nat (length (history storage)) <= max_calls ->
    Forall (fun t => (tprev <= t)%Q) (map call_time calls) ->
    nondecreasing (map call_time calls) ->
    history (fst (snd (run_calls wrapper calls (storage, w))))
    = List.filter (live (List.last (map call_time calls) tprev))
        (earlier ++ accepted_times wrapper calls (storage, w)) /\
    Z.of_nat (length (history (fst (snd (run_calls wrapper calls (storage, w))))))
    <= max_calls.
Proof.
  induction calls as [|c calls IH];
    intros storage w tprev earlier Hpos Hhist Hlen Hafter Hmono.
  - cbn. rewrite app_nil_r. by split.
  - cbn [map] in Hafter, Hmono. apply Forall_cons in Hafter as [Hc Hafter].
    destruct Hmono as [Hnext Hmono].
    assert (Hpruned : List.filter (live (call_time c)) (history storage)
                      = List.filter (live (call_time c)) earlier)
      by (rewrite Hhist; by apply filter_live_later).
    assert (Hself : Qltb (call_time c - call_time c) period_seconds = true)
      by (apply Qltb_lt; lra).
    pose proof (rate_limit_history_bounded (call_args c) (call_kwargs c)
                  (call_time c) storage w ltac:(lia) Hlen) as Hlen'.
    assert (Hlast : List.last (map call_time (c :: calls)) tprev
                    = List.last (map call_time calls) (call_time c)).
    { cbn [map]. destruct calls as [|c' calls']; [done|].
      cbn [map]. transitivity (List.last (call_time c' :: map call_time calls') tprev);
        [reflexivity | apply last_nonempty_default]. }
    rewrite Hlast. cbn [run_calls accepted_times].
    destruct (wrapper (call_args c) (call_kwargs c) (call_time c) (storage, w))
      as [o [storage' w']] eqn:Hcall.
    cbn [fst snd] in Hlen' |- *.
    assert (Hhist' : history storage'
                     = List.filter (live (call_time c))
                         (earlier ++
                          (if (invocations w' =? invocations w)%nat then []
                           else [call_time c]))).
    { destruct (Z.leb_spec max_calls
                  (Z.of_nat (length (List.filter (live (call_time c))
                                       (history storage))))) as [Hfull | Hroom].
      - destruct (List.filter (live (call_time c)) (history storage))
          as [|oldest others] eqn:Hf.
        + rewrite rate_limit_no_capacity in Hcall
            by (try done; cbn in Hfull; lia).
          inversion Hcall; subst. rewrite Nat.eqb_refl, app_nil_r.
          rewrite lookup_insert_eq. cbn [default from_option id]. by rewrite <- Hpruned.
        + rewrite (rate_limit_rejects _ _ _ _ _ oldest others) in Hcall by done.
          inversion Hcall; subst. rewrite Nat.eqb_refl, app_nil_r.
          rewrite lookup_insert_eq. cbn [default from_option id]. by rewrite <- Hpruned.
      - rewrite rate_limit_accepts in Hcall by exact Hroom.
        inversion Hcall; subst. cbn [invocations].
        replace (S (invocations w) =? invocations w)%nat with false
          by (symmetry; apply Nat.eqb_neq; lia).
        rewrite lookup_insert_eq. cbn [default from_option id].
        rewrite List.filter_app, Hpruned. cbn [List.filter]. by rewrite Hself. }
    destruct (run_calls wrapper calls (storage', w')) as [os s''] eqn:Hrun.
    specialize (IH storage' w' (call_time c)
                  (earlier ++ (if (invocations w' =? invocations w)%nat then []
                               else [call_time c]))
                  Hpos Hhist' Hlen' Hnext Hmono).
    rewrite Hrun in IH. cbn [fst snd] in IH |- *.
    by rewrite <- app_assoc in IH.
Qed.

(** X12.  Hence no window of [period_seconds] seconds that ends at a call
    holds more than [max_calls] admitted calls, in any run that starts
    with an empty history and reads a clock that never goes back. *)
Lemma rate_limit_window_bound (calls : list (Call Value)) (w : World W) :
  (0 < period_seconds)%Q ->
  0 <= max_calls ->
  nondecreasing (map call_time calls) ->
  Z.of_nat
    (length (List.filter (live (List.last (map call_time calls) 0%Q))
               (accepted_times wrapper calls (∅, w))))
  <= max_calls.
Proof.
  intros Hpos Hmax Hmono.
  destruct calls as [|c calls]; [cbn; lia|].
  destruct (rate_limit_history_is_window (c :: calls) ∅ w (call_time c) [])
    as [Hhist Hlen]; try done.
  - cbn [map] in Hmono |- *. destruct Hmono as [Hnext _].
    constructor; [lra | exact Hnext].
  - rewrite Hhist in Hlen. cbn [app] in Hlen.
    cbn [map] in Hlen |- *.
    rewrite (last_nonempty_default _ _ 0%Q (call_time c)). exact Hlen.
Qed.

(** Calls made while the history, pruned, is [counted] and stays below
    the limit: all are admitted.  [t1] is where the window starts. *)
Lemma rate_limit_run_accepted (t1 : Q) (calls : list (Call Value)) :
  forall (storage : gmap positive (list Q)) (w : World W) (counted : list Q),
    (forall t', (t1 <= t')%Q -> (t' - t1 < period_seconds)%Q ->
                List.filter (live t') (history storage) = counted) ->
    Forall (fun t => (t1 <= t)%Q) counted ->
    Forall (fun t => (t1 <= t)%Q /\ (t - t1 < period_seconds)%Q) (map call_time calls) ->
    Z.of_nat (length counted + length calls) <= max_calls ->
    exists storage' w',
      run_calls wrapper calls (storage, w)
      = (fst (run_func func calls (user w)), (storage', w')) /\
      user w' = snd (run_func func calls (user w)) /\
      invocations w' = (invocations w + length calls)%nat /\
      (calls <> [] -> storage' !! func_id = Some (counted ++ map call_time calls)).
Proof.
  induction calls as [|c calls IH]; intros storage w counted Hprune Hcounted Hwin Hlen.
  - exists storage, w. cbn. repeat split; [lia | done].
  - cbn [map] in Hwin. apply Forall_cons in Hwin as [[Hc1 Hc2] Hwin].
    cbn [run_calls run_func].
    pose proof (Hprune (call_time c) Hc1 Hc2) as Hnow.
    rewrite rate_limit_accepts by (rewrite Hnow; cbn [length] in Hlen; lia).
    rewrite Hnow.
    destruct (func (call_args c) (call_kwargs c) (user w)) as [o u'].
    cbn [fst snd].
    destruct (IH (<[func_id := counted ++ [call_time c]]> storage)
                 (mkWorld u' (S (invocations w)) (sleeps w))
                 (counted ++ [call_time c])) as (storage' & w' & Hrun & Hu & Hi & Hh).
    + intros t' Ht1 Ht2. rewrite lookup_insert_eq. cbn [default].
      apply filter_all_live. apply Forall_app. split.
      * eapply Forall_impl; [exact Hcounted|]. intros t Ht. cbv beta in *. lra.
      * constructor; [lra | constructor].
    + apply Forall_app. split; [exact Hcounted | constructor; [exact Hc1 | constructor]].
    + exact Hwin.
    + rewrite length_app. cbn [length] in *. lia.
    + exists storage', w'. rewrite Hrun. cbn [user invocations] in *.
      destruct (run_func func calls u') as [os u'']. cbn [fst snd] in *.
      repeat split; [exact Hu | cbn [length]; lia |].
      intros _. destruct calls as [|c' calls'].
      * cbn in Hrun. inversion Hrun. subst. cbn. by rewrite lookup_insert_eq.
      * rewrite Hh by done. by rewrite <- app_assoc.
Qed.

End RateLimitFacts.

Lemma nondecreasing_app (l1 l2 : list Q) :
  nondecreasing (l1 ++ l2) ->
  nondecreasing l1 /\ nondecreasing l2 /\
  forall x y, x ∈ l1 -> y ∈ l2 -> (x <= y)%Q.
Proof.
  induction l1 as [|a l1 IH]; cbn.
  - intros H. repeat split; [done|]. intros x y Hx. by inv Hx.
  - intros [Ha H]. apply IH in H as (H1 & H2 & H12).
    apply Forall_app in Ha as [Ha1 Ha2].
    repeat split; try done.
    intros x y Hx Hy. inv Hx; [|by apply H12].
    by eapply Forall_forall in Ha2.
Qed.

(** C3 (sliding window of the rate limiter).  Let [first :: rest] be
    [max_calls] calls, made at clock readings that never go back, such
    that no call counted earlier is still inside the window when [first]
    is made.  Then all of them are admitted: each invokes the wrapped
    function (the outcomes are those of the function itself) and the
    history consists of exactly their clock readings.  A further call
    [extra] made less than [period_seconds] after [first] raises the
    rate-limit exception with wait
    [period_seconds - (now - oldest entry)], where the oldest entry is the
    clock reading of [first]; it neither invokes the wrapped function nor
    changes the history.  A call [later] made [period_seconds] or more
    after [first] is admitted again: the entry of [first] is pruned, the
    clock reading of [later] is appended and the wrapped function is
    invoked. *)
Theorem rate_limit_sliding_window {Value W : Type}
    (max_calls : Z) (period_seconds : Q) (func : Callable Value W)
    (func_id : positive) (func_name : string)
    (first : Call Value) (rest : list (Call Value)) (extra later : Call Value)
    (storage : gmap positive (list Q)) (w : World W) :
  Z.of_nat (length (first :: rest)) = max_calls ->
  nondecreasing (map call_time (first :: rest ++ [extra; later])) ->
  Forall (fun t => (period_seconds <= call_time first - t)%Q)
         (default [] (storage !! func_id)) ->
  (call_time extra - call_time first < period_seconds)%Q ->
  (period_seconds <= call_time later - call_time first)%Q ->
  exists storage1 w1,
    run_calls (rate_limit_wrapper max_calls period_seconds func func_id func_name)
      (first :: rest) (storage, w)
    = (fst (run_func func (first :: rest) (user w)), (storage1, w1)) /\
    user w1 = snd (run_func func (first :: rest) (user w)) /\
    invocations w1 = (invocations w + length (first :: rest))%nat /\
    storage1 !! func_id = Some (map call_time (first :: rest)) /\
    rate_limit_wrapper max_calls period_seconds func func_id func_name
      (call_args extra) (call_kwargs extra) (call_time extra) (storage1, w1)
    = (Raise (mkExn Exception
                (MsgRateLimit func_name
                   (period_seconds - (call_time extra - call_time first))%Q)),
       (storage1, w1)) /\
    rate_limit_wrapper max_calls period_seconds func func_id func_name
      (call_args later) (call_kwargs later) (call_time later) (storage1, w1)
    = (fst (func (call_args later) (call_kwargs later) (user w1)),
       (<[func_id :=
            List.filter (fun t => Qltb (call_time later - t) period_seconds)
              (map call_time rest) ++ [call_time later]]> storage1,
        mkWorld (snd (func (call_args later) (call_kwargs later) (user w1)))
          (S (invocations w1)) (sleeps w1))).
Proof.
  intros Hlen Hmono Hfresh Hextra Hlater.
  change (first :: rest ++ [extra; later]) with ((first :: rest) ++ [extra; later])
    in Hmono.
  rewrite map_app in Hmono.
  apply nondecreasing_app in Hmono as (Hcalls & Htail & Hle).
  assert (Hfirst : forall t, t ∈ map call_time (first :: rest) ->
                             (call_time first <= t)%Q).
  { intros t Ht. cbn in Ht, Hcalls. destruct Hcalls as [Hc _].
    inv Ht; [lra | by eapply Forall_forall in Hc]. }
  assert (Hwin : Forall (fun t => (call_time first <= t)%Q /\
                                  (t - call_time first < period_seconds)%Q)
                   (map call_time (first :: rest))).
  { apply Forall_forall. intros t Ht. split; [by apply Hfirst|].
    assert (t <= call_time extra)%Q by (apply Hle; [done | cbn; left]).
    lra. }
  destruct (rate_limit_run_accepted max_calls period_seconds func func_id func_name
              (call_time first) (first :: rest) storage w [])
    as (storage1 & w1 & Hrun & Hu & Hi & Hh).
  { intros t' Ht1 Ht2. apply filter_none_live.
    eapply Forall_impl; [exact Hfresh|]. intros t Ht. cbv beta in *. lra. }
  { constructor. }
  { exact Hwin. }
  { cbn [length] in *. lia. }
  specialize (Hh ltac:(done)). cbn [app] in Hh.
  exists storage1, w1. repeat split; try assumption.
  - rewrite rate_limit_rejects
      with (oldest := call_time first) (others := map call_time rest).
    + rewrite insert_id by exact Hh. reflexivity.
    + rewrite Hh. cbn [default].
      change (call_time first :: map call_time rest)
        with (map call_time (first :: rest)).
      apply filter_all_live. apply Forall_forall. intros t Ht.
      specialize (Hfirst t Ht). lra.
    + cbn [length] in *. rewrite length_map. lia.
  - rewrite rate_limit_accepts; rewrite Hh; cbn [default from_option id map List.filter].
    + replace (Qltb (call_time later - call_time first) period_seconds) with false
        by (symmetry; by apply Qltb_ge).
      reflexivity.
    + replace (Qltb (call_time later - call_time first) period_seconds) with false
        by (symmetry; by apply Qltb_ge).
      pose proof (List.filter_length_le
                    (fun t => Qltb (call_time later - t) period_seconds)
                    (map call_time rest)) as Hle'.
      rewrite length_map in Hle'. cbn [length] in Hlen. lia.
Qed.

Lemma rate_limit_sliding_window_witness :
  Z.of_nat (length [mkCall ([] : list Z) [] 0; mkCall [] [] (1 # 10)]) = 2 /\
  nondecreasing (map call_time
                   ([mkCall ([] : list Z) [] 0; mkCall [] [] (1 # 10)]
                    ++ [mkCall [] [] (2 # 10); mkCall [] [] 1])) /\
  ((2 # 10) - 0 < 1)%Q /\ (1 <= 1 - 0)%Q /\
  exists storage1 w1,
    run_calls (rate_limit_wrapper 2 1 Demo.successful_function 1%positive "limited_function")
      [mkCall [] [] 0; mkCall [] [] (1 # 10)] (∅, Demo.world0)
    = ([Return 10; Return 10], (storage1, w1)) /\
    invocations w1 = 2%nat /\
    storage1 !! 1%positive = Some [0%Q; 1 # 10] /\
    rate_limit_wrapper 2 1 Demo.successful_function 1%positive "limited_function"
      [] [] (2 # 10) (storage1, w1)
    = (Raise (mkExn Exception (MsgRateLimit "limited_function" (1 - ((2 # 10) - 0))%Q)),
       (storage1, w1)) /\
    fst (rate_limit_wrapper 2 1 Demo.successful_function 1%positive "limited_function"
           [] [] 1 (storage1, w1)) = Return 10.
Proof.
  assert (H1 : Z.of_nat (length [mkCall ([] : list Z) [] 0; mkCall [] [] (1 # 10)]) = 2)
    by reflexivity.
  assert (H2 : nondecreasing
                 (map call_time
                    (mkCall ([] : list Z) [] 0 :: [mkCall [] [] (1 # 10)]
                     ++ [mkCall [] [] (2 # 10); mkCall [] [] 1]))).
  { cbn. repeat split; repeat constructor; vm_compute; discriminate. }
  assert (H3 : Forall (fun t => (1 <= call_time (mkCall ([] : list Z) [] 0) - t)%Q)
                 (default [] ((∅ : gmap positive (list Q)) !! 1%positive))).
  { rewrite lookup_empty. constructor. }
  assert (H4 : ((2 # 10) - 0 < 1)%Q) by reflexivity.
  assert (H5 : (1 <= 1 - 0)%Q) by (vm_compute; discriminate).
  split; [exact H1|]. split; [exact H2|]. split; [exact H4|]. split; [exact H5|].
  destruct (rate_limit_sliding_window 2 1 Demo.successful_function 1%positive
              "limited_function" (mkCall [] [] 0) [mkCall [] [] (1 # 10)]
              (mkCall [] [] (2 # 10)) (mkCall [] [] 1) ∅ Demo.world0
              H1 H2 H3 H4 H5)
    as (storage1 & w1 & Hrun & _ & Hinv & Hhist & Hreject & Hlater).
  exists storage1, w1. repeat split; try assumption.
  cbn [call_args call_kwargs call_time] in Hlater. rewrite Hlater. reflexivity.
Defined.

(** ** [circuit_breaker] *)

Ltac breaker_simpl :=
  cbn -[Z.add Z.leb Qleb Qltb Qminus isinstance].

Ltac breaker_unfold :=
  unfold circuit_breaker_wrapper, breaker_gate, breaker_on_success,
    breaker_on_failure, try_except, modify_store, bind, get_store, put_store,
    ret, raise, invoke,
    set_state, set_failure_count, set_last_failure_time, set_success_count;
  breaker_simpl.

Section BreakerFacts.
Context {Value W : Type}.
Variables (failure_threshold : Z) (recovery_timeout : Q) (exceptions : list ExnClass).
Variable func : Callable Value W.
Variable func_name : string.

#[local] Abbreviation cb_wrapper :=
  (circuit_breaker_wrapper failure_threshold recovery_timeout exceptions func func_name).

(** An open circuit whose timeout has not elapsed rejects the call; the
    exception is raised in front of the [try], so neither the storage nor
    the world changes. *)
Lemma breaker_rejects (args : list Value) (kwargs : list (string * Value)) (now : Q)
    (b : Breaker) (w : World W) :
  state b = OPEN ->
  (now - last_failure_time b < recovery_timeout)%Q ->
  cb_wrapper args kwargs now (b, w)
  = (Raise (mkExn Exception
              (MsgCircuitOpen func_name
                 (recovery_timeout - (now - last_failure_time b))%Q)),
     (b, w)).
Proof.
  destruct b as [st fc lft sc]. cbn [state last_failure_time].
  intros -> Hwait. breaker_unfold.
  apply Qleb_gt in Hwait. rewrite Hwait. reflexivity.
Qed.

(** An open circuit whose timeout has elapsed becomes half-open, with
    [success_count] 0, and the wrapped function runs.  The local variable
    [state] still holds [OPEN], so a returning call changes nothing else. *)
Lemma breaker_probe (args : list Value) (kwargs : list (string * Value)) (now : Q)
    (b : Breaker) (w : World W) (r : Value) (u' : W) :
  state b = OPEN ->
  (recovery_timeout <= now - last_failure_time b)%Q ->
  func args kwargs (user w) = (Return r, u') ->
  cb_wrapper args kwargs now (b, w)
  = (Return r,
     (mkBreaker HALF_OPEN (failure_count b) (last_failure_time b) 0,
      mkWorld u' (S (invocations w)) (sleeps w))).
Proof.
  destruct b as [st fc lft sc]. cbn [state last_failure_time failure_count].
  intros -> Helapsed Hfunc. breaker_unfold.
  apply Qleb_le in Helapsed. rewrite Helapsed. breaker_simpl.
  rewrite Hfunc. reflexivity.
Qed.

(** A call that starts half-open and returns counts one success; the
    second one closes the circuit and clears [failure_count]. *)
Lemma breaker_half_open_success (args : list Value) (kwargs : list (string * Value))
    (now : Q) (b : Breaker) (w : World W) (r : Value) (u' : W) :
  state b = HALF_OPEN ->
  func args kwargs (user w) = (Return r, u') ->
  cb_wrapper args kwargs now (b, w)
  = (Return r,
     (if 2 <=? success_count b + 1
      then mkBreaker CLOSED 0 (last_failure_time b) (success_count b + 1)
      else mkBreaker HALF_OPEN (failure_count b) (last_failure_time b)
             (success_count b + 1),
      mkWorld u' (S (invocations w)) (sleeps w))).
Proof.
  destruct b as [st fc lft sc].
  cbn [state last_failure_time failure_count success_count].
  intros -> Hfunc. breaker_unfold. rewrite Hfunc. breaker_simpl.
  destruct (2 <=? sc + 1); reflexivity.
Qed.

(** A returning call of a closed circuit clears [failure_count]. *)
Lemma breaker_closed_success (args : list Value) (kwargs : list (string * Value))
    (now : Q) (b : Breaker) (w : World W) (r : Value) (u' : W) :
  state b = CLOSED ->
  func args kwargs (user w) = (Return r, u') ->
  cb_wrapper args kwargs now (b, w)
  = (Return r,
     (mkBreaker CLOSED 0 (last_failure_time b) (success_count b),
      mkWorld u' (S (invocations w)) (sleeps w))).
Proof.
  destruct b as [st fc lft sc].
  cbn [state last_failure_time failure_count success_count].
  intros -> Hfunc. breaker_unfold. rewrite Hfunc. reflexivity.
Qed.

(** A qualifying failure of a call that was not rejected: one more
    failure, at the clock reading of the call, and the circuit opens when
    the count has reached the threshold. *)
Lemma breaker_failure (args : list Value) (kwargs : list (string * Value))
    (now : Q) (b : Breaker) (w : World W) (e : Exn Value) (u' : W) :
  state b <> OPEN ->
  func args kwargs (user w) = (Raise e, u') ->
  isinstance e exceptions = true ->
  cb_wrapper args kwargs now (b, w)
  = (Raise e,
     (mkBreaker (if failure_threshold <=? failure_count b + 1 then OPEN else state b)
        (failure_count b + 1) now (success_count b),
      mkWorld u' (S (invocations w)) (sleeps w))).
Proof.
  destruct b as [st fc lft sc].
  cbn [state last_failure_time failure_count success_count].
  intros Hstate Hfunc He. breaker_unfold.
  destruct st; [|done|]; breaker_simpl; rewrite Hfunc, He; breaker_simpl;
    destruct (failure_threshold <=? fc + 1); reflexivity.
Qed.

(** Consecutive qualifying failures of a closed circuit, as long as the
    count does not pass the threshold. *)
Lemma breaker_run_failures (calls : list (Call Value)) :
  forall (b : Breaker) (w : World W),
    state b = CLOSED ->
    failure_count b + Z.of_nat (length calls) <= failure_threshold ->
    Forall (qualifying_failure exceptions) (fst (run_func func calls (user w))) ->
    exists b' w',
      run_calls cb_wrapper calls (b, w)
      = (fst (run_func func calls (user w)), (b', w')) /\
      user w' = snd (run_func func calls (user w)) /\
      invocations w' = (invocations w + length calls)%nat /\
      failure_count b' = failure_count b + Z.of_nat (length calls) /\
      last_failure_time b' = List.last (map call_time calls) (last_failure_time b) /\
      (calls <> [] ->
       state b' = if failure_threshold <=? failure_count b' then OPEN else CLOSED).
Proof.
  induction calls as [|c calls IH]; intros b w Hclosed Hcount Hfail.
  - exists b, w. cbn. repeat split; [lia | lia | done].
  - cbn [run_calls run_func] in *.
    destruct (func (call_args c) (call_kwargs c) (user w)) as [o u'] eqn:Hfunc.
    destruct (run_func func calls u') as [os u''] eqn:Hrest.
    cbn [fst snd] in Hfail. apply Forall_cons in Hfail as [Ho Hos].
    destruct o as [r|e]; [done|]. cbn in Ho.
    rewrite (breaker_failure _ _ _ b w e u') by (try rewrite Hclosed; done).
    rewrite Hclosed.
    cbn [length] in Hcount.
    destruct calls as [|c' calls'].
    + cbn in Hrest. inversion Hrest; subst os u''.
      eexists _, _. cbn [run_calls fst snd]. split; [reflexivity|].
      cbn [user invocations failure_count last_failure_time state length map List.last].
      repeat split; lia.
    + replace (failure_threshold <=? failure_count b + 1) with false
        by (symmetry; apply Z.leb_gt; cbn [length] in Hcount; lia).
      destruct (IH (mkBreaker CLOSED (failure_count b + 1) (call_time c) (success_count b))
                   (mkWorld u' (S (invocations w)) (sleeps w)))
        as (b' & w' & Hrun & Hu & Hi & Hfc & Hlft & Hst).
      * reflexivity.
      * cbn [failure_count length] in *. lia.
      * cbn [user]. by rewrite Hrest.
      * rewrite Hrun. cbn [user] in *. rewrite Hrest in *. cbn [fst snd] in *.
        exists b', w'. split; [reflexivity|].
        cbn [invocations failure_count last_failure_time] in *.
        repeat split; [exact Hu | cbn [length] in *; lia | cbn [length] in *; lia
                      | | intros _; by apply Hst].
        rewrite Hlft. cbn [map].
        transitivity (List.last (call_time c' :: map call_time calls')
                        (last_failure_time b));
          [apply last_nonempty_default | reflexivity].
Qed.

(** Whatever a call does, a circuit that is not closed afterwards has
    reached the failure threshold. *)
Lemma breaker_invariant_step (args : list Value) (kwargs : list (string * Value))
    (now : Q) (b : Breaker) (w : World W) :
  (state b <> CLOSED -> failure_threshold <= failure_count b) ->
  state (fst (snd (cb_wrapper args kwargs now (b, w)))) <> CLOSED ->
  failure_threshold <= failure_count (fst (snd (cb_wrapper args kwargs now (b, w)))).
Proof.
  destruct b as [st fc lft sc]. breaker_unfold. intros Hinv.
  destruct st; breaker_simpl.
  - destruct (func args kwargs (user w)) as [[r|e] u']; cbn; [done|].
    destruct (isinstance e exceptions); cbn; [|done].
    destruct (Z.leb_spec failure_threshold (fc + 1)); cbn; [lia | done].
  - destruct (Qleb recovery_timeout (now - lft)); cbn; [|intros _; by apply Hinv].
    destruct (func args kwargs (user w)) as [[r|e] u']; cbn; [intros _; by apply Hinv|].
    destruct (isinstance e exceptions); cbn; [|intros _; by apply Hinv].
    specialize (Hinv ltac:(done)).
    destruct (Z.leb_spec failure_threshold (fc + 1)); cbn; intros _; lia.
  - destruct (func args kwargs (user w)) as [[r|e] u']; cbn.
    + destruct (2 <=? sc + 1); cbn; [done | intros _; by apply Hinv].
    + destruct (isinstance e exceptions); cbn; [|intros _; by apply Hinv].
      specialize (Hinv ltac:(done)).
      destruct (Z.leb_spec failure_threshold (fc + 1)); cbn; intros _; lia.
Qed.

Lemma breaker_reachable_invariant (b : Breaker) :
  breaker_reachable failure_threshold recovery_timeout exceptions func func_name b ->
  state b <> CLOSED -> failure_threshold <= failure_count b.
Proof.
  induction 1 as [|b args kwargs now w Hreach IH]; [done|].
  by apply breaker_invariant_step.
Qed.

(** [failure_count] only goes down by being set to 0, and then the
    circuit is closed. *)
Lemma breaker_reset_only_closed (args : list Value) (kwargs : list (string * Value))
    (now : Q) (b : Breaker) (w : World W) :
  failure_count (fst (snd (cb_wrapper args kwargs now (b, w)))) < failure_count b ->
  state (fst (snd (cb_wrapper args kwargs now (b, w)))) = CLOSED /\
  failure_count (fst (snd (cb_wrapper args kwargs now (b, w)))) = 0.
Proof.
  destruct b as [st fc lft sc]. breaker_unfold.
  destruct st; breaker_simpl.
  - destruct (func args kwargs (user w)) as [[r|e] u']; cbn; [done|].
    destruct (isinstance e exceptions); cbn; [|lia].
    destruct (failure_threshold <=? fc + 1); cbn; lia.
  - destruct (Qleb recovery_timeout (now - lft)); cbn; [|lia].
    destruct (func args kwargs (user w)) as [[r|e] u']; cbn; [lia|].
    destruct (isinstance e exceptions); cbn; [|lia].
    destruct (failure_threshold <=? fc + 1); cbn; lia.
  - destruct (func args kwargs (user w)) as [[r|e] u']; cbn.
    + destruct (2 <=? sc + 1); cbn; [done | lia].
    + destruct (isinstance e exceptions); cbn; [|lia].
      destruct (failure_threshold <=? fc + 1); cbn; lia.
Qed.

End BreakerFacts.

(** ** The claims about [circuit_breaker] *)

(** C4 (opening and fast failure).  Starting closed with no failure
    counted, [failure_threshold] consecutive calls whose wrapped function
    raises a qualifying exception are all passed to the wrapped function
    and leave the circuit open, with [last_failure_time] the clock reading
    of the last of them.  An open circuit rejects every call made less
    than [recovery_timeout] after [last_failure_time]: the call raises the
    circuit-open exception with wait
    [recovery_timeout - (now - last_failure_time)], the wrapped function
    is not invoked and nothing is changed. *)
Theorem breaker_opens_and_fails_fast {Value W : Type}
    (failure_threshold : Z) (recovery_timeout : Q) (exceptions : list ExnClass)
    (func : Callable Value W) (func_name : string)
    (calls : list (Call Value)) (last : Call Value) (b : Breaker) (w : World W) :
  state b = CLOSED ->
  failure_count b = 0 ->
  Z.of_nat (length (calls ++ [last])) = failure_threshold ->
  Forall (qualifying_failure exceptions)
         (fst (run_func func (calls ++ [last]) (user w))) ->
  exists b1 w1,
    run_calls (circuit_breaker_wrapper failure_threshold recovery_timeout exceptions
                 func func_name) (calls ++ [last]) (b, w)
    = (fst (run_func func (calls ++ [last]) (user w)), (b1, w1)) /\
    invocations w1 = (invocations w + length (calls ++ [last]))%nat /\
    state b1 = OPEN /\
    failure_count b1 = failure_threshold /\
    last_failure_time b1 = call_time last /\
    forall (bo : Breaker) (args : list Value) (kwargs : list (string * Value))
           (now : Q) (w' : World W),
      state bo = OPEN ->
      (now - last_failure_time bo < recovery_timeout)%Q ->
      circuit_breaker_wrapper failure_threshold recovery_timeout exceptions
        func func_name args kwargs now (bo, w')
      = (Raise (mkExn Exception
                  (MsgCircuitOpen func_name
                     (recovery_timeout - (now - last_failure_time bo))%Q)),
         (bo, w')).
Proof.
  intros Hclosed Hzero Hlen Hfail.
  destruct (breaker_run_failures failure_threshold recovery_timeout exceptions func
              func_name (calls ++ [last]) b w Hclosed ltac:(lia) Hfail)
    as (b1 & w1 & Hrun & _ & Hinv & Hfc & Hlft & Hst).
  exists b1, w1. split; [exact Hrun|]. split; [exact Hinv|].
  assert (Hne : calls ++ [last] <> []) by (by destruct calls).
  specialize (Hst Hne).
  replace (failure_threshold <=? failure_count b1) with true in Hst
    by (symmetry; apply Z.leb_le; lia).
  split; [exact Hst|]. split; [lia|]. split.
  - rewrite Hlft, map_app. cbn [map]. apply last_last.
  - intros bo args kwargs now w' Hopen Hwait. by apply breaker_rejects.
Qed.

Lemma breaker_opens_and_fails_fast_witness :
  state breaker_init = CLOSED /\ failure_count breaker_init = 0 /\
  Z.of_nat (length ([mkCall ([] : list Z) [] 0] ++ [mkCall [] [] (1 # 10)])) = 2 /\
  exists b1 w1,
    run_calls (circuit_breaker_wrapper 2 (1 # 2) [Exception] Demo.failing_function
                 "failing_function")
      ([mkCall [] [] 0] ++ [mkCall [] [] (1 # 10)]) (breaker_init, Demo.world0)
    = ([Raise (mkExn ConnectionError (MsgText "Connection failed"));
        Raise (mkExn ConnectionError (MsgText "Connection failed"))], (b1, w1)) /\
    state b1 = OPEN /\ last_failure_time b1 = (1 # 10)%Q /\
    circuit_breaker_wrapper 2 (1 # 2) [Exception] Demo.failing_function
      "failing_function" [] [] (2 # 10) (b1, w1)
    = (Raise (mkExn Exception
                (MsgCircuitOpen "failing_function"
                   ((1 # 2) - ((2 # 10) - last_failure_time b1))%Q)),
       (b1, w1)).
Proof.
  assert (H1 : state breaker_init = CLOSED) by reflexivity.
  assert (H2 : failure_count breaker_init = 0) by reflexivity.
  assert (H3 : Z.of_nat (length ([mkCall ([] : list Z) [] 0]
                                 ++ [mkCall [] [] (1 # 10)])) = 2) by reflexivity.
  assert (H4 : Forall (qualifying_failure [Exception])
                 (fst (run_func Demo.failing_function
                         ([mkCall [] [] 0] ++ [mkCall [] [] (1 # 10)])
                         (user Demo.world0)))).
  { cbn. repeat constructor. }
  split; [exact H1|]. split; [exact H2|]. split; [exact H3|].
  destruct (breaker_opens_and_fails_fast 2 (1 # 2) [Exception] Demo.failing_function
              "failing_function" [mkCall [] [] 0] (mkCall [] [] (1 # 10))
              breaker_init Demo.world0 H1 H2 H3 H4)
    as (b1 & w1 & Hrun & _ & Hopen & _ & Hlft & Hreject).
  exists b1, w1. split; [exact Hrun|]. split; [exact Hopen|]. split; [exact Hlft|].
  apply Hreject; [exact Hopen|]. rewrite Hlft. reflexivity.
Defined.

(** Threshold 2, recovery timeout 0.5 s, as in
    [test_circuit_breaker_opens_after_threshold]: with the circuit open
    and the timeout elapsed, two consecutive successful calls leave it
    half-open with one success counted. *)
Example breaker_two_successes_stay_half_open :
  run_calls (circuit_breaker_wrapper 2 (1 # 2) [Exception] Demo.successful_function
               "flaky_function")
    [mkCall [] [] 1; mkCall [] [] 2] (mkBreaker OPEN 2 0 0, Demo.world0)
  = ([Return 10; Return 10],
     (mkBreaker HALF_OPEN 2 0 1, mkWorld 2%nat 2%nat [])).
Proof. reflexivity. Qed.

(** C1 (recovery).  With the circuit open and at least
    [recovery_timeout] elapsed since [last_failure_time], the next call
    makes the circuit half-open with [success_count] 0 and invokes the
    wrapped function, as claimed.  But the code does not close the circuit
    after two successes: the bookkeeping of lines 310-318 tests the local
    variable [state] read on entry, which in the call that made the
    transition still holds [OPEN], so the success of that call is not
    counted.  The next successful call counts one, and only the third
    consecutive successful call closes the circuit and sets
    [failure_count] to 0. *)
Theorem breaker_recovery {Value W : Type}
    (failure_threshold : Z) (recovery_timeout : Q) (exceptions : list ExnClass)
    (func : Callable Value W) (func_name : string)
    (c1 c2 c3 : Call Value) (b : Breaker) (w : World W) :
  state b = OPEN ->
  (recovery_timeout <= call_time c1 - last_failure_time b)%Q ->
  Forall is_return (fst (run_func func [c1; c2; c3] (user w))) ->
  exists w1 w2 w3,
    circuit_breaker_wrapper failure_threshold recovery_timeout exceptions func func_name
      (call_args c1) (call_kwargs c1) (call_time c1) (b, w)
    = (fst (func (call_args c1) (call_kwargs c1) (user w)),
       (mkBreaker HALF_OPEN (failure_count b) (last_failure_time b) 0, w1)) /\
    invocations w1 = S (invocations w) /\
    circuit_breaker_wrapper failure_threshold recovery_timeout exceptions func func_name
      (call_args c2) (call_kwargs c2) (call_time c2)
      (mkBreaker HALF_OPEN (failure_count b) (last_failure_time b) 0, w1)
    = (fst (func (call_args c2) (call_kwargs c2) (user w1)),
       (mkBreaker HALF_OPEN (failure_count b) (last_failure_time b) 1, w2)) /\
    invocations w2 = S (invocations w1) /\
    circuit_breaker_wrapper failure_threshold recovery_timeout exceptions func func_name
      (call_args c3) (call_kwargs c3) (call_time c3)
      (mkBreaker HALF_OPEN (failure_count b) (last_failure_time b) 1, w2)
    = (fst (func (call_args c3) (call_kwargs c3) (user w2)),
       (mkBreaker CLOSED 0 (last_failure_time b) 2, w3)) /\
    invocations w3 = S (invocations w2).
Proof.
  intros Hopen Helapsed Hret. cbn [run_func] in Hret.
  destruct (func (call_args c1) (call_kwargs c1) (user w)) as [o1 u1] eqn:H1.
  destruct (func (call_args c2) (call_kwargs c2) u1) as [o2 u2] eqn:H2.
  destruct (func (call_args c3) (call_kwargs c3) u2) as [o3 u3] eqn:H3.
  cbn [fst snd] in Hret.
  apply Forall_cons in Hret as [Hr1 Hret].
  apply Forall_cons in Hret as [Hr2 Hret].
  apply Forall_cons in Hret as [Hr3 _].
  destruct o1 as [r1|]; [|done]. destruct o2 as [r2|]; [|done].
  destruct o3 as [r3|]; [|done].
  exists (mkWorld u1 (S (invocations w)) (sleeps w)),
         (mkWorld u2 (S (S (invocations w))) (sleeps w)),
         (mkWorld u3 (S (S (S (invocations w)))) (sleeps w)).
  cbn [user invocations fst].
  rewrite (breaker_probe _ _ _ _ _ _ _ _ b w r1 u1 Hopen Helapsed H1).
  rewrite H2, H3. cbn [fst].
  rewrite breaker_half_open_success with (r := r2) (u' := u2)
    by (reflexivity || exact H2).
  rewrite breaker_half_open_success with (r := r3) (u' := u3)
    by (reflexivity || exact H3).
  repeat split.
Qed.

Lemma breaker_recovery_witness :
  state (mkBreaker OPEN 2 0 0) = OPEN /\
  ((1 # 2) <= 1 - last_failure_time (mkBreaker OPEN 2 0 0))%Q /\
  state (fst (snd (run_calls
                     (circuit_breaker_wrapper 2 (1 # 2) [Exception]
                        Demo.successful_function "flaky_function")
                     [mkCall [] [] 1; mkCall [] [] 2; mkCall [] [] 3]
                     (mkBreaker OPEN 2 0 0, Demo.world0)))) = CLOSED.
Proof.
  assert (H1 : state (mkBreaker OPEN 2 0 0) = OPEN) by reflexivity.
  assert (H2 : ((1 # 2) <= 1 - last_failure_time (mkBreaker OPEN 2 0 0))%Q)
    by (vm_compute; discriminate).
  assert (H3 : Forall is_return
                 (fst (run_func Demo.successful_function
                         [mkCall [] [] 1; mkCall [] [] 2; mkCall [] [] 3]
                         (user Demo.world0)))).
  { cbn. repeat constructor. }
  split; [exact H1|]. split; [exact H2|].
  destruct (breaker_recovery 2 (1 # 2) [Exception] Demo.successful_function
              "flaky_function" (mkCall [] [] 1) (mkCall [] [] 2) (mkCall [] [] 3)
              (mkBreaker OPEN 2 0 0) Demo.world0 H1 H2 H3)
    as (w1 & w2 & w3 & Hc1 & _ & Hc2 & _ & Hc3 & _).
  cbn [run_calls call_args call_kwargs call_time failure_count last_failure_time] in *.
  rewrite Hc1, Hc2, Hc3. reflexivity.
Defined.

(** The rejection of an open circuit is not a kind of its own: it is a
    plain [Exception], the class of what the wrapped function here raises
    itself, and the default [exceptions=(Exception,)] matches it. *)
Lemma circuit_open_is_plain_exception :
  exists rejection e u,
    fst (circuit_breaker_wrapper 2 (1 # 2) [Exception] Demo.raises_exception
           "external_service" [] [] (1 # 10) (mkBreaker OPEN 2 0 0, Demo.world0))
    = Raise rejection /\
    Demo.raises_exception [] [] 0%nat = (Raise e, u) /\
    exn_class rejection = exn_class e /\
    isinstance rejection [Exception] = true.
Proof. eexists _, _, _. repeat split. Qed.

(** So a breaker around a function that is behind a breaker of its own
    counts the inner rejection as one more failure. *)
Example outer_breaker_counts_inner_rejection :
  circuit_breaker_wrapper 2 (1 # 2) [Exception] (Demo.protected_service (1 # 10))
    "outer" [] [] (1 # 10)
    (breaker_init, mkWorld (mkBreaker OPEN 2 0 0, Demo.world0) 0%nat [])
  = (Raise (mkExn Exception
              (MsgCircuitOpen "external_service" ((1 # 2) - ((1 # 10) - 0))%Q)),
     (mkBreaker CLOSED 1 (1 # 10) 0,
      mkWorld (mkBreaker OPEN 2 0 0, Demo.world0) 1%nat [])).
Proof. reflexivity. Qed.

(** C7 (the circuit-open rejection), amended.  The rejection raised by an
    open circuit is a plain [Exception] carrying the circuit-open message,
    not an exception class of its own.  It is raised in front of the
    guarded call of the wrapped function, so, whatever classes count as
    failures, the breaker that raises it keeps its [failure_count] and its
    [last_failure_time] (the whole storage is unchanged) and the wrapped
    function is not invoked. *)
Theorem circuit_open_not_counted {Value W : Type}
    (failure_threshold : Z) (recovery_timeout : Q) (exceptions : list ExnClass)
    (func : Callable Value W) (func_name : string)
    (args : list Value) (kwargs : list (string * Value)) (now : Q)
    (b : Breaker) (w : World W) :
  state b = OPEN ->
  (now - last_failure_time b < recovery_timeout)%Q ->
  exists rejection b' w',
    circuit_breaker_wrapper failure_threshold recovery_timeout exceptions func func_name
      args kwargs now (b, w) = (Raise rejection, (b', w')) /\
    exn_class rejection = Exception /\
    exn_msg rejection
    = MsgCircuitOpen func_name (recovery_timeout - (now - last_failure_time b))%Q /\
    failure_count b' = failure_count b /\
    last_failure_time b' = last_failure_time b /\
    b' = b /\
    invocations w' = invocations w.
Proof.
  intros Hopen Hwait. eexists _, b, w.
  split; [by apply breaker_rejects|]. by repeat split.
Qed.

Lemma circuit_open_not_counted_witness :
  state (mkBreaker OPEN 2 0 0) = OPEN /\
  ((1 # 10) - last_failure_time (mkBreaker OPEN 2 0 0) < 1 # 2)%Q /\
  exists rejection b' w',
    circuit_breaker_wrapper 2 (1 # 2) [Exception] Demo.raises_exception
      "external_service" [] [] (1 # 10) (mkBreaker OPEN 2 0 0, Demo.world0)
    = (Raise rejection, (b', w')) /\
    exn_class rejection = Exception /\
    failure_count b' = 2 /\ invocations w' = 0%nat.
Proof.
  assert (H1 : state (mkBreaker OPEN 2 0 0) = OPEN) by reflexivity.
  assert (H2 : ((1 # 10) - last_failure_time (mkBreaker OPEN 2 0 0) < 1 # 2)%Q)
    by reflexivity.
  split; [exact H1|]. split; [exact H2|].
  destruct (circuit_open_not_counted 2 (1 # 2) [Exception] Demo.raises_exception
              "external_service" [] [] (1 # 10) (mkBreaker OPEN 2 0 0) Demo.world0
              H1 H2)
    as (rej & b' & w' & Hrun & Hclass & _ & Hfc & _ & _ & Hinv).
  exists rej, b', w'. repeat split; assumption.
Defined.

(** C10 (counter invariant).  In every state the breaker can reach from
    its initial storage, an open or half-open circuit has
    [failure_count >= failure_threshold].  A call lowers [failure_count]
    only by setting it to 0, and the circuit is then closed.  Hence a
    single qualifying failure of a half-open circuit, which adds one to a
    count already at the threshold, opens the circuit again.  (The bound
    [failure_threshold >= 1] is not needed.) *)
Theorem breaker_counter_invariant {Value W : Type}
    (failure_threshold : Z) (recovery_timeout : Q) (exceptions : list ExnClass)
    (func : Callable Value W) (func_name : string) (b : Breaker) :
  breaker_reachable failure_threshold recovery_timeout exceptions func func_name b ->
  (state b = OPEN \/ state b = HALF_OPEN -> failure_threshold <= failure_count b) /\
  (forall (args : list Value) (kwargs : list (string * Value)) (now : Q) (w : World W),
     failure_count
       (fst (snd (circuit_breaker_wrapper failure_threshold recovery_timeout exceptions
                    func func_name args kwargs now (b, w)))) < failure_count b ->
     state
       (fst (snd (circuit_breaker_wrapper failure_threshold recovery_timeout exceptions
                    func func_name args kwargs now (b, w)))) = CLOSED /\
     failure_count
       (fst (snd (circuit_breaker_wrapper failure_threshold recovery_timeout exceptions
                    func func_name args kwargs now (b, w)))) = 0) /\
  (forall (args : list Value) (kwargs : list (string * Value)) (now : Q) (w : World W)
          (e : Exn Value) (u' : W),
     state b = HALF_OPEN ->
     func args kwargs (user w) = (Raise e, u') ->
     isinstance e exceptions = true ->
     circuit_breaker_wrapper failure_threshold recovery_timeout exceptions
       func func_name args kwargs now (b, w)
     = (Raise e,
        (mkBreaker OPEN (failure_count b + 1) now (success_count b),
         mkWorld u' (S (invocations w)) (sleeps w)))).
Proof.
  intros Hreach.
  pose proof (breaker_reachable_invariant failure_threshold recovery_timeout
                exceptions func func_name b Hreach) as Hinv.
  split; [|split].
  - intros [H|H]; apply Hinv; by rewrite H.
  - intros args kwargs now w. apply breaker_reset_only_closed.
  - intros args kwargs now w e u' Hhalf Hfunc He.
    rewrite (breaker_failure _ _ _ _ _ _ _ _ b w e u') by (try rewrite Hhalf; done).
    specialize (Hinv ltac:(by rewrite Hhalf)).
    replace (failure_threshold <=? failure_count b + 1) with true
      by (symmetry; apply Z.leb_le; lia).
    reflexivity.
Qed.

Lemma breaker_counter_invariant_witness :
  breaker_reachable 2 (1 # 2) [Exception] Demo.flaky_function "flaky_function"
    (mkBreaker HALF_OPEN 2 0 0) /\
  2 <= failure_count (mkBreaker HALF_OPEN 2 0 0) /\
  circuit_breaker_wrapper 2 (1 # 2) [Exception] Demo.flaky_function "flaky_function"
    [] [] 2 (mkBreaker HALF_OPEN 2 0 0, Demo.world0)
  = (Raise (mkExn ConnectionError (MsgText "Temporary failure")),
     (mkBreaker OPEN 3 2 0, mkWorld 1%nat 1%nat [])).
Proof.
  assert (Hreach : breaker_reachable 2 (1 # 2) [Exception] Demo.flaky_function
                     "flaky_function" (mkBreaker HALF_OPEN 2 0 0)).
  { exact (reach_call 2 (1 # 2) [Exception] Demo.flaky_function "flaky_function"
             (mkBreaker OPEN 2 0 0) [] [] 1 (mkWorld 2%nat 2%nat [])
             (reach_call 2 (1 # 2) [Exception] Demo.flaky_function "flaky_function"
                (mkBreaker CLOSED 1 0 0) [] [] 0 (mkWorld 1%nat 1%nat [])
                (reach_call 2 (1 # 2) [Exception] Demo.flaky_function "flaky_function"
                   breaker_init [] [] 0 Demo.world0
                   (reach_init 2 (1 # 2) [Exception] Demo.flaky_function
                      "flaky_function")))). }
  destruct (breaker_counter_invariant 2 (1 # 2) [Exception] Demo.flaky_function
              "flaky_function" (mkBreaker HALF_OPEN 2 0 0) Hreach)
    as (Hbound & _ & Hfail).
  split; [exact Hreach|]. split; [apply Hbound; by right|].
  exact (Hfail [] [] 2%Q Demo.world0 _ _ eq_refl eq_refl eq_refl).
Defined.

(** ** [validate_input] *)

Section ValidateFacts.
Context {Value W : Type}.
Variable validators : list (string * (Value -> bool)).
Variable func : Callable Value W.
Variable func_sig : Signature (Value := Value).

(** The loop over the validators either passes or raises the
    [ValueError] of a validator that rejects its bound argument; it never
    touches the state. *)
Lemma check_validators_cases {S : Type} (vs : list (string * (Value -> bool)))
    (bound : list (string * Value)) (s : S * World W) :
  (check_validators (W := W) vs bound s = (Return tt, s) /\
   forall p f v, (p, f) ∈ vs -> arguments_get bound p = Some v -> f v = true) \/
  (exists p f v,
     (p, f) ∈ vs /\ arguments_get bound p = Some v /\ f v = false /\
     check_validators (W := W) vs bound s
     = (Raise (mkExn ValueError (MsgValidation p v)), s)).
Proof.
  induction vs as [|[p f] vs IH]; cbn [check_validators].
  - left. split; [done|]. intros p f v Hin. by inv Hin.
  - destruct (arguments_get bound p) as [v|] eqn:Hget.
    + destruct (f v) eqn:Hfv.
      * destruct IH as [[Hok Hall] | (p' & f' & v' & Hin & Hget' & Hf' & Hraise)].
        -- left. split; [exact Hok|]. intros p' f' v' Hin Hget'.
           apply elem_of_cons in Hin as [Heq | Hin]; [|by eapply Hall].
           inversion Heq; subst. congruence.
        -- right. exists p', f', v'. repeat split; try done. by right.
      * right. exists p, f, v. repeat split; try done. by left.
    + destruct IH as [[Hok Hall] | (p' & f' & v' & Hin & Hget' & Hf' & Hraise)].
      * left. split; [exact Hok|]. intros p' f' v' Hin Hget'.
        apply elem_of_cons in Hin as [Heq | Hin]; [|by eapply Hall].
        inversion Heq; subst. congruence.
      * right. exists p', f', v'. repeat split; try done. by right.
Qed.

(** What lines 247-258 do once [signature] has been found (as it would
    be in [inspect]): when the arguments bind and every validator accepts
    its bound argument the wrapped function is invoked once and its
    outcome returned; when some validator rejects its bound argument a
    [ValueError] naming a rejected parameter and its value is raised and
    the wrapped function is not invoked. *)
Lemma validate_input_in_inspect (args : list Value) (kwargs : list (string * Value))
    (bound : list (string * Value)) (w : World W) :
  bind_arguments func_sig args kwargs = Return bound ->
  ((forall p f v, (p, f) ∈ validators -> arguments_get bound p = Some v -> f v = true) /\
   validate_input_wrapper_in validators func func_sig inspect args kwargs (tt, w)
   = (fst (func args kwargs (user w)),
      (tt, mkWorld (snd (func args kwargs (user w))) (S (invocations w)) (sleeps w)))) \/
  (exists p f v,
     (p, f) ∈ validators /\ arguments_get bound p = Some v /\ f v = false /\
     validate_input_wrapper_in validators func func_sig inspect args kwargs (tt, w)
     = (Raise (mkExn ValueError (MsgValidation p v)), (tt, w))).
Proof.
  intros Hbind.
  unfold validate_input_wrapper_in, module_getattr, bind, ret. cbn [existsb inspect module_attrs String.eqb Ascii.eqb Bool.eqb orb].
  rewrite Hbind.
  destruct (check_validators_cases validators bound (tt, w))
    as [[Hok Hall] | (p & f & v & Hin & Hget & Hf & Hraise)].
  - left. split; [exact Hall|]. rewrite Hok. unfold invoke. cbn [fst snd].
    by destruct (func args kwargs (user w)).
  - right. exists p, f, v. repeat split; try done. by rewrite Hraise.
Qed.

End ValidateFacts.

(** C2 (validator).  The claim does not hold of the code: the first
    statement of the wrapper reads [functools.signature], a name the
    module [functools] does not bind, so every call of a decorated
    function, with valid or invalid arguments, raises [AttributeError]
    before any argument is bound or checked; the wrapped function is never
    invoked and no [ValueError] is ever raised. *)
Theorem validate_input_raises_attribute_error {Value W : Type}
    (validators : list (string * (Value -> bool))) (func : Callable Value W)
    (func_sig : Signature) (args : list Value) (kwargs : list (string * Value))
    (w : World W) :
  validate_input_wrapper validators func func_sig args kwargs (tt, w)
  = (Raise (mkExn AttributeError (MsgNoAttribute "functools" "signature")), (tt, w)).
Proof. reflexivity. Qed.

(** [validated_function(5)] of [test_validate_input_decorator], which the
    test expects to return 10. *)
Example validated_function_5 :
  validate_input_wrapper [("x"%string, Demo.positive_int)] Demo.double
    [("x"%string, None)] [5] [] (tt, Demo.world0)
  = (Raise (mkExn AttributeError (MsgNoAttribute "functools" "signature")),
     (tt, Demo.world0)).
Proof. reflexivity. Qed.

(** With [inspect.signature] the same call returns 10 and the call with
    -1 raises the [ValueError]. *)
Example validated_function_with_inspect :
  validate_input_wrapper_in [("x"%string, Demo.positive_int)] Demo.double
    [("x"%string, None)] inspect [5] [] (tt, Demo.world0)
  = (Return 10, (tt, mkWorld 1%nat 1%nat [])) /\
  validate_input_wrapper_in [("x"%string, Demo.positive_int)] Demo.double
    [("x"%string, None)] inspect [-1] [] (tt, Demo.world0)
  = (Raise (mkExn ValueError (MsgValidation "x" (-1))), (tt, Demo.world0)).
Proof. split; reflexivity. Qed.

(** * Further properties of the decorators *)

(** ** [retry] *)

Section RetryMore.
Context {Value W : Type}.
Variables (max_attempts : Z) (delay backoff : Q) (exceptions : list ExnClass).
Variable func : Callable Value W.
Variables (args : list Value) (kwargs : list (string * Value)).

Hypothesis backoff_nonneg : (0 <= backoff)%Q.

(** [k] retried failures and then an outcome that is not retried (a value
    or another exception): the loop stops there. *)
Lemma retry_loop_stops (k : nat) :
  forall (a : Z) (last : option (Exn Value)) (d : Q) (w : World W),
    a + Z.of_nat k <= max_attempts -> (0 <= d)%Q ->
    (forall i, (i < k)%nat ->
       qualifying_failure exceptions
         (fst (func args kwargs (user_after func args kwargs i (user w))))) ->
    ~ qualifying_failure exceptions
        (fst (func args kwargs (user_after func args kwargs k (user w)))) ->
    retry_loop max_attempts backoff exceptions func args kwargs
      (py_range a (max_attempts + 1)) last d (tt, w)
    = (fst (func args kwargs (user_after func args kwargs k (user w))),
       (tt, mkWorld (snd (func args kwargs (user_after func args kwargs k (user w))))
              (invocations w + S k) (sleeps w ++ backoff_waits d backoff k))).
Proof.
  induction k as [|k IH]; intros a last d w Ha Hd Hfail Hstop.
  - rewrite py_range_cons by lia. cbn [retry_loop user_after backoff_waits] in *.
    unfold invoke. cbn [fst snd].
    destruct (func args kwargs (user w)) as [[v|e] u']; cbn [fst snd] in *.
    + rewrite app_nil_r. do 3 f_equal. lia.
    + destruct (isinstance e exceptions) eqn:He; [by destruct Hstop|].
      rewrite app_nil_r. do 3 f_equal. lia.
  - rewrite py_range_cons by lia. cbn [retry_loop].
    pose proof (Hfail 0%nat ltac:(lia)) as H0. cbn [user_after] in H0.
    unfold invoke at 1. cbn [fst snd].
    destruct (func args kwargs (user w)) as [[v|e] u'] eqn:Hf; cbn [fst snd] in H0;
      [done|].
    cbn in H0. rewrite H0.
    replace (a <? max_attempts) with true by (symmetry; apply Z.ltb_lt; lia).
    unfold bind at 1, time_sleep at 1.
    replace (Qltb d 0) with false by (symmetry; by apply Qltb_ge).
    cbn [fst snd user invocations sleeps].
    rewrite (IH (a + 1) (Some e) (d * backoff)%Q
               (mkWorld u' (S (invocations w)) (sleeps w ++ [d]))).
    + cbn [user invocations sleeps user_after backoff_waits]. rewrite Hf. cbn [snd].
      rewrite <- app_assoc. do 3 f_equal. lia.
    + lia.
    + by apply Qmult_le_0_compat.
    + intros i Hi. specialize (Hfail (S i) ltac:(lia)).
      cbn [user_after user] in Hfail |- *. by rewrite Hf in Hfail.
    + cbn [user_after user] in Hstop |- *. by rewrite Hf in Hstop.
Qed.

End RetryMore.

(** X1.  A function that fails [k < max_attempts] times with retried
    exceptions and then returns [v]: the wrapper returns [v], has invoked
    the function exactly [k + 1] times and has slept once after each
    failure, [delay], [delay * backoff], ... *)
Theorem retry_succeeds_after_failures {Value W : Type}
    (max_attempts : Z) (delay backoff : Q) (exceptions : list ExnClass)
    (func : Callable Value W) (args : list Value) (kwargs : list (string * Value))
    (k : nat) (v : Value) (w : World W) :
  Z.of_nat k < max_attempts ->
  (0 <= delay)%Q ->
  (0 <= backoff)%Q ->
  (forall i, (i < k)%nat ->
     qualifying_failure exceptions
       (fst (func args kwargs (user_after func args kwargs i (user w))))) ->
  fst (func args kwargs (user_after func args kwargs k (user w))) = Return v ->
  exists w',
    retry_wrapper max_attempts delay backoff exceptions func args kwargs (tt, w)
    = (Return v, (tt, w')) /\
    invocations w' = (invocations w + S k)%nat /\
    sleeps w' = sleeps w ++ backoff_waits delay backoff k /\
    user w' = snd (func args kwargs (user_after func args kwargs k (user w))).
Proof.
  intros Hk Hdelay Hbackoff Hfail Hret.
  eexists. unfold retry_wrapper.
  rewrite (retry_loop_stops max_attempts backoff exceptions func args kwargs
             Hbackoff k 1 None delay w);
    [| lia | exact Hdelay | exact Hfail | rewrite Hret; cbn; tauto].
  rewrite Hret. by repeat split.
Qed.

Lemma retry_succeeds_after_failures_witness :
  Z.of_nat 2 < 3 /\ (0 <= 1 # 10)%Q /\ (0 <= 2)%Q /\
  exists w',
    retry_wrapper 3 (1 # 10) 2 [Exception] Demo.flaky_function [] [] (tt, Demo.world0)
    = (Return 10, (tt, w')) /\
    invocations w' = 3%nat /\
    sleeps w' = [1 # 10; (1 # 10) * 2]%Q.
Proof.
  assert (H1 : Z.of_nat 2 < 3) by lia.
  assert (H2 : (0 <= 1 # 10)%Q) by (vm_compute; discriminate).
  assert (H3 : (0 <= 2)%Q) by (vm_compute; discriminate).
  assert (H4 : forall i, (i < 2)%nat ->
             qualifying_failure [Exception]
               (fst (Demo.flaky_function [] []
                       (user_after Demo.flaky_function [] [] i (user Demo.world0))))).
  { intros [|[|i]] Hi; [reflexivity | reflexivity | lia]. }
  assert (H5 : fst (Demo.flaky_function [] []
                      (user_after Demo.flaky_function [] [] 2 (user Demo.world0)))
               = Return 10) by reflexivity.
  split; [exact H1|]. split; [exact H2|]. split; [exact H3|].
  destruct (retry_succeeds_after_failures 3 (1 # 10) 2 [Exception] Demo.flaky_function
              [] [] 2 10 Demo.world0 H1 H2 H3 H4 H5) as (w' & Hrun & Hinv & Hsl & _).
  exists w'. by repeat split.
Defined.

(** X2.  An exception that is not an instance of [exceptions] is not
    retried: even after [k] retried failures it leaves the wrapper at
    once, as it is, without a further sleep or attempt. *)
Theorem retry_other_exception_propagates {Value W : Type}
    (max_attempts : Z) (delay backoff : Q) (exceptions : list ExnClass)
    (func : Callable Value W) (args : list Value) (kwargs : list (string * Value))
    (k : nat) (e : Exn Value) (w : World W) :
  Z.of_nat k < max_attempts ->
  (0 <= delay)%Q ->
  (0 <= backoff)%Q ->
  (forall i, (i < k)%nat ->
     qualifying_failure exceptions
       (fst (func args kwargs (user_after func args kwargs i (user w))))) ->
  fst (func args kwargs (user_after func args kwargs k (user w))) = Raise e ->
  isinstance e exceptions = false ->
  exists w',
    retry_wrapper max_attempts delay backoff exceptions func args kwargs (tt, w)
    = (Raise e, (tt, w')) /\
    invocations w' = (invocations w + S k)%nat /\
    sleeps w' = sleeps w ++ backoff_waits delay backoff k.
Proof.
  intros Hk Hdelay Hbackoff Hfail Hraise He.
  eexists. unfold retry_wrapper.
  rewrite (retry_loop_stops max_attempts backoff exceptions func args kwargs
             Hbackoff k 1 None delay w);
    [| lia | exact Hdelay | exact Hfail | rewrite Hraise; cbn; by rewrite He].
  rewrite Hraise. by repeat split.
Qed.

Lemma retry_other_exception_propagates_witness :
  Z.of_nat 0 < 3 /\ (0 <= 1 # 10)%Q /\ (0 <= 2)%Q /\
  isinstance (mkExn (Value := Z) Exception (MsgText "boom")) [ConnectionError] = false /\
  exists w',
    retry_wrapper 3 (1 # 10) 2 [ConnectionError] Demo.raises_exception [] []
      (tt, Demo.world0)
    = (Raise (mkExn Exception (MsgText "boom")), (tt, w')) /\
    invocations w' = 1%nat /\ sleeps w' = [].
Proof.
  assert (H1 : Z.of_nat 0 < 3) by lia.
  assert (H2 : (0 <= 1 # 10)%Q) by (vm_compute; discriminate).
  assert (H3 : (0 <= 2)%Q) by (vm_compute; discriminate).
  assert (H4 : forall i, (i < 0)%nat ->
             qualifying_failure [ConnectionError]
               (fst (Demo.raises_exception [] []
                       (user_after Demo.raises_exception [] [] i (user Demo.world0)))))
    by (intros i Hi; lia).
  assert (H5 : fst (Demo.raises_exception [] []
                      (user_after Demo.raises_exception [] [] 0 (user Demo.world0)))
               = Raise (mkExn Exception (MsgText "boom"))) by reflexivity.
  assert (H6 : isinstance (mkExn (Value := Z) Exception (MsgText "boom"))
                 [ConnectionError] = false) by reflexivity.
  split; [exact H1|]. split; [exact H2|]. split; [exact H3|]. split; [exact H6|].
  destruct (retry_other_exception_propagates 3 (1 # 10) 2 [ConnectionError]
              Demo.raises_exception [] [] 0 _ Demo.world0 H1 H2 H3 H4 H5 H6)
    as (w' & Hrun & Hinv & Hsl).
  exists w'. by repeat split.
Defined.

(** X3.  With [max_attempts <= 0] the loop body never runs: the function
    is not invoked and [raise last_exception] raises [None], a
    [TypeError], whatever the function would have done. *)
Theorem retry_without_attempts {Value W : Type}
    (max_attempts : Z) (delay backoff : Q) (exceptions : list ExnClass)
    (func : Callable Value W) (args : list Value) (kwargs : list (string * Value))
    (w : World W) :
  max_attempts <= 0 ->
  retry_wrapper max_attempts delay backoff exceptions func args kwargs (tt, w)
  = (Raise (mkExn TypeError (MsgText "exceptions must derive from BaseException")),
     (tt, w)).
Proof.
  intros Hmax. unfold retry_wrapper. by rewrite py_range_nil by lia.
Qed.

Lemma retry_without_attempts_witness :
  0 <= 0 /\
  retry_wrapper 0 1 2 [Exception] Demo.successful_function [] [] (tt, Demo.world0)
  = (Raise (mkExn TypeError (MsgText "exceptions must derive from BaseException")),
     (tt, Demo.world0)).
Proof.
  assert (H : 0 <= 0) by lia.
  split; [exact H|].
  exact (retry_without_attempts 0 1 2 [Exception] Demo.successful_function [] []
           Demo.world0 H).
Defined.

(** X4.  With a negative [delay] and more than one attempt allowed, a
    retried failure of the first attempt is lost: [time.sleep] raises
    [ValueError] inside the handler, and that is what the caller gets,
    after a single invocation. *)
Theorem retry_negative_delay {Value W : Type}
    (max_attempts : Z) (delay backoff : Q) (exceptions : list ExnClass)
    (func : Callable Value W) (args : list Value) (kwargs : list (string * Value))
    (e : Exn Value) (u' : W) (w : World W) :
  2 <= max_attempts ->
  (delay < 0)%Q ->
  func args kwargs (user w) = (Raise e, u') ->
  isinstance e exceptions = true ->
  retry_wrapper max_attempts delay backoff exceptions func args kwargs (tt, w)
  = (Raise (mkExn ValueError (MsgText "sleep length must be non-negative")),
     (tt, mkWorld u' (S (invocations w)) (sleeps w))).
Proof.
  intros Hmax Hdelay Hfunc He. unfold retry_wrapper.
  rewrite py_range_cons by lia. cbn [retry_loop]. unfold invoke at 1.
  cbn [fst snd]. rewrite Hfunc, He.
  replace (1 <? max_attempts) with true by (symmetry; apply Z.ltb_lt; lia).
  unfold bind, time_sleep. apply Qltb_lt in Hdelay. by rewrite Hdelay.
Qed.

Lemma retry_negative_delay_witness :
  2 <= 3 /\ (- (1 # 2) < 0)%Q /\
  retry_wrapper 3 (- (1 # 2)) 2 [Exception] Demo.failing_function [] []
    (tt, Demo.world0)
  = (Raise (mkExn ValueError (MsgText "sleep length must be non-negative")),
     (tt, mkWorld 1%nat 1%nat [])).
Proof.
  assert (H1 : 2 <= 3) by lia.
  assert (H2 : (- (1 # 2) < 0)%Q) by reflexivity.
  split; [exact H1|]. split; [exact H2|].
  exact (retry_negative_delay 3 (- (1 # 2)) 2 [Exception] Demo.failing_function [] []
           _ _ Demo.world0 H1 H2 eq_refl eq_refl).
Defined.

(** ** [cache] *)

Lemma string_length_append (a b : string) :
  String.length (String.append a b) = (String.length a + String.length b)%nat.
Proof.
  induction a as [|c a IH]; [done|].
  change (S (String.length (String.append a b))
          = S (String.length a + String.length b)).
  f_equal. exact IH.
Qed.

Section CacheMore.
Context {Value W : Type}.
Variables (repr : Value -> string) (repr_str : string -> string).
Variable ttl_seconds : Q.
Variable func : Callable Value W.

(** With the same keys in both dictionaries, a key has a fresh entry or
    is stale: the [KeyError] of line 174 is out of reach. *)
Lemma cache_in_sync_cases (st : CacheState Value) (key : string) (now : Q) :
  cache_in_sync st ->
  cache_stale ttl_seconds st key now \/
  exists v t, cache_store st !! key = Some v /\ cache_timestamps st !! key = Some t /\
              (now - t < ttl_seconds)%Q.
Proof.
  intros Hsync. specialize (Hsync key). unfold cache_stale.
  destruct (cache_store st !! key) as [v|] eqn:Hs,
           (cache_timestamps st !! key) as [t|] eqn:Ht.
  - destruct (Qlt_le_dec (now - t) ttl_seconds) as [Hlt | Hle].
    + right. by exists v, t.
    + left. right. by exists v, t.
  - exfalso. destruct Hsync as [Hsync _]. by destruct (Hsync ltac:(eauto)).
  - exfalso. destruct Hsync as [_ Hsync]. by destruct (Hsync ltac:(eauto)).
  - left. by left.
Qed.

Lemma cache_in_sync_step (args : list Value) (kwargs : list (string * Value))
    (now : Q) (st : CacheState Value) (w : World W) :
  cache_in_sync st ->
  cache_in_sync
    (fst (snd (cache_wrapper repr repr_str ttl_seconds func args kwargs now (st, w)))).
Proof.
  intros Hsync.
  destruct (cache_in_sync_cases st (make_cache_key repr repr_str args kwargs) now Hsync)
    as [Hstale | (v & t & Hs & Ht & Hfresh)].
  - rewrite cache_wrapper_miss by exact Hstale. cbn zeta.
    destruct (fst (func args kwargs (user w))) as [r|e]; cbn [fst snd];
      intros key; specialize (Hsync key); cbn [cache_store cache_timestamps];
      destruct (decide (make_cache_key repr repr_str args kwargs = key)) as [->|Hne].
    + rewrite !lookup_insert_eq. split; eauto.
    + by rewrite !lookup_insert_ne.
    + rewrite !lookup_delete_eq. split; intros [? ?]; done.
    + by rewrite !lookup_delete_ne.
  - by rewrite (cache_wrapper_hit repr repr_str ttl_seconds func args kwargs now t v).
Qed.

Lemma cache_in_sync_run (calls : list (Call Value)) :
  forall (st : CacheState Value) (w : World W),
    cache_in_sync st ->
    cache_in_sync
      (fst (snd (run_calls (cache_wrapper repr repr_str ttl_seconds func) calls (st, w)))).
Proof.
  induction calls as [|c calls IH]; intros st w Hsync; [exact Hsync|].
  cbn [run_calls].
  pose proof (cache_in_sync_step (call_args c) (call_kwargs c) (call_time c) st w Hsync)
    as Hstep.
  destruct (cache_wrapper repr repr_str ttl_seconds func (call_args c) (call_kwargs c)
              (call_time c) (st, w)) as [o [st' w']].
  specialize (IH st' w' Hstep).
  destruct (run_calls (cache_wrapper repr repr_str ttl_seconds func) calls (st', w'))
    as [os s'']. exact IH.
Qed.

End CacheMore.

(** X5.  A failed computation is never stored: when the lookup misses and
    the function raises, the exception reaches the caller, the key has no
    entry afterwards (a stale one has been deleted) and the next call with
    these arguments, whenever it comes, invokes the function again. *)
Theorem cache_failure_not_cached {Value W : Type}
    (repr : Value -> string) (repr_str : string -> string) (ttl_seconds : Q)
    (func : Callable Value W) (args : list Value) (kwargs : list (string * Value))
    (st : CacheState Value) (w : World W) (now later : Q) (e : Exn Value) (u' : W) :
  cache_stale ttl_seconds st (make_cache_key repr repr_str args kwargs) now ->
  func args kwargs (user w) = (Raise e, u') ->
  exists s1,
    cache_wrapper repr repr_str ttl_seconds func args kwargs now (st, w) = (Raise e, s1) /\
    cache_store (fst s1) !! make_cache_key repr repr_str args kwargs = None /\
    cache_timestamps (fst s1) !! make_cache_key repr repr_str args kwargs = None /\
    invocations (snd s1) = S (invocations w) /\
    fst (cache_wrapper repr repr_str ttl_seconds func args kwargs later s1)
    = fst (func args kwargs u') /\
    invocations (snd (snd (cache_wrapper repr repr_str ttl_seconds func args kwargs
                             later s1)))
    = S (S (invocations w)).
Proof.
  intros Hstale Hfunc. eexists. split.
  { rewrite cache_wrapper_miss by exact Hstale. cbn zeta. rewrite Hfunc. reflexivity. }
  cbn [fst snd cache_store cache_timestamps invocations].
  split; [apply lookup_delete_eq|]. split; [apply lookup_delete_eq|].
  split; [done|].
  rewrite cache_wrapper_miss
    by (left; cbn [cache_store cache_timestamps]; split; apply lookup_delete_eq).
  cbn zeta. cbn [user invocations].
  by destruct (func args kwargs u') as [[r|e2] u2].
Qed.

Lemma cache_failure_not_cached_witness :
  cache_stale 60 (cache_empty Z) (make_cache_key Demo.repr Demo.repr_str [] []) 0 /\
  exists s1,
    cache_wrapper Demo.repr Demo.repr_str 60 Demo.flaky_function [] [] 0
      (cache_empty Z, Demo.world0)
    = (Raise (mkExn ConnectionError (MsgText "Temporary failure")), s1) /\
    cache_store (fst s1) !! make_cache_key Demo.repr Demo.repr_str [] [] = None /\
    invocations (snd (snd (cache_wrapper Demo.repr Demo.repr_str 60 Demo.flaky_function
                             [] [] 1 s1))) = 2%nat.
Proof.
  assert (H1 : cache_stale 60 (cache_empty Z)
                 (make_cache_key Demo.repr Demo.repr_str [] []) 0).
  { left. split; apply lookup_empty. }
  split; [exact H1|].
  destruct (cache_failure_not_cached Demo.repr Demo.repr_str 60 Demo.flaky_function
              [] [] (cache_empty Z) Demo.world0 0 1 _ _ H1 eq_refl)
    as (s1 & Hrun & Hs & _ & _ & _ & Hinv).
  exists s1. by repeat split.
Defined.

(** X6.  A call only touches the entry of its own key: whatever it does
    (hit, miss, eviction, failure), the value and the timestamp stored
    under any other key stay as they were. *)
Theorem cache_other_keys_untouched {Value W : Type}
    (repr : Value -> string) (repr_str : string -> string) (ttl_seconds : Q)
    (func : Callable Value W) (args : list Value) (kwargs : list (string * Value))
    (now : Q) (st : CacheState Value) (w : World W) (key : string) :
  key <> make_cache_key repr repr_str args kwargs ->
  cache_store
    (fst (snd (cache_wrapper repr repr_str ttl_seconds func args kwargs now (st, w))))
    !! key = cache_store st !! key /\
  cache_timestamps
    (fst (snd (cache_wrapper repr repr_str ttl_seconds func args kwargs now (st, w))))
    !! key = cache_timestamps st !! key.
Proof.
  intros Hne.
  unfold cache_wrapper, cache_lookup, bind, get_store, put_store, ret, raise, invoke.
  cbn [fst snd].
  destruct (cache_store st !! make_cache_key repr repr_str args kwargs) as [v|];
    [destruct (cache_timestamps st !! make_cache_key repr repr_str args kwargs) as [t|];
     [destruct (Qltb (now - t) ttl_seconds)|]|];
    cbn [fst snd]; try done;
    destruct (func args kwargs (user w)) as [[r|e] u'];
    cbn [fst snd cache_store cache_timestamps];
    rewrite ?lookup_insert_ne, ?lookup_delete_ne by done; done.
Qed.

Lemma cache_other_keys_untouched_witness :
  make_cache_key Demo.repr Demo.repr_str [5] []
  <> make_cache_key Demo.repr Demo.repr_str [10] [] /\
  cache_store
    (fst (snd (cache_wrapper Demo.repr Demo.repr_str 60 Demo.double [10] [] 1
                 (mkCache {[make_cache_key Demo.repr Demo.repr_str [5] [] := 10]}
                          {[make_cache_key Demo.repr Demo.repr_str [5] [] := 0%Q]},
                  Demo.world0))))
    !! make_cache_key Demo.repr Demo.repr_str [5] [] = Some 10.
Proof.
  assert (H : make_cache_key Demo.repr Demo.repr_str [5] []
              <> make_cache_key Demo.repr Demo.repr_str [10] []) by (vm_compute; discriminate).
  split; [exact H|].
  rewrite (proj1 (cache_other_keys_untouched Demo.repr Demo.repr_str 60 Demo.double
                    [10] [] 1 _ Demo.world0 _ H)).
  cbn [cache_store]. apply lookup_singleton_eq.
Defined.

(** X7.  In every state reached from the empty cache the two dictionaries
    hold the same keys, so the lookup of the timestamp on line 174 never
    raises [KeyError]: a call either returns a stored value and changes
    nothing, or invokes the function exactly once and passes its outcome
    on. *)
Theorem cache_serves_or_computes {Value W : Type}
    (repr : Value -> string) (repr_str : string -> string) (ttl_seconds : Q)
    (func : Callable Value W) (calls : list (Call Value)) (w : World W)
    (args : list Value) (kwargs : list (string * Value)) (now : Q)
    (st : CacheState Value) (w1 : World W) :
  snd (run_calls (cache_wrapper repr repr_str ttl_seconds func) calls
         (cache_empty Value, w)) = (st, w1) ->
  cache_in_sync st /\
  ((exists v, cache_store st !! make_cache_key repr repr_str args kwargs = Some v /\
              cache_wrapper repr repr_str ttl_seconds func args kwargs now (st, w1)
              = (Return v, (st, w1))) \/
   (fst (cache_wrapper repr repr_str ttl_seconds func args kwargs now (st, w1))
    = fst (func args kwargs (user w1)) /\
    invocations (snd (snd (cache_wrapper repr repr_str ttl_seconds func args kwargs now
                             (st, w1))))
    = S (invocations w1))).
Proof.
  intros Hrun.
  assert (Hsync : cache_in_sync st).
  { pose proof (cache_in_sync_run repr repr_str ttl_seconds func calls
                  (cache_empty Value) w) as H.
    rewrite Hrun in H. apply H. intros key. cbn. by rewrite !lookup_empty. }
  split; [exact Hsync|].
  destruct (cache_in_sync_cases ttl_seconds st (make_cache_key repr repr_str args kwargs)
              now Hsync) as [Hstale | (v & t & Hs & Ht & Hfresh)].
  - right. rewrite cache_wrapper_miss by exact Hstale. cbn zeta.
    by destruct (func args kwargs (user w1)) as [[r|e] u'].
  - left. exists v. split; [exact Hs|]. by eapply cache_wrapper_hit.
Qed.

Lemma cache_serves_or_computes_witness :
  snd (run_calls (cache_wrapper Demo.repr Demo.repr_str 60 Demo.double)
         [mkCall [5] [] 0] (cache_empty Z, Demo.world0))
  = (mkCache {[make_cache_key Demo.repr Demo.repr_str [5] [] := 10]}
             {[make_cache_key Demo.repr Demo.repr_str [5] [] := 0%Q]},
     mkWorld 1%nat 1%nat []) /\
  cache_in_sync (mkCache {[make_cache_key Demo.repr Demo.repr_str [5] [] := 10]}
                         {[make_cache_key Demo.repr Demo.repr_str [5] [] := 0%Q]}).
Proof.
  assert (H : snd (run_calls (cache_wrapper Demo.repr Demo.repr_str 60 Demo.double)
                     [mkCall [5] [] 0] (cache_empty Z, Demo.world0))
              = (mkCache {[make_cache_key Demo.repr Demo.repr_str [5] [] := 10]}
                         {[make_cache_key Demo.repr Demo.repr_str [5] [] := 0%Q]},
                 mkWorld 1%nat 1%nat [])).
  { cbn [run_calls call_args call_kwargs call_time].
    rewrite cache_wrapper_miss by (left; split; apply lookup_empty).
    cbn. by rewrite !insert_empty. }
  split; [exact H|].
  exact (proj1 (cache_serves_or_computes Demo.repr Demo.repr_str 60 Demo.double
                  [mkCall [5] [] 0] Demo.world0 [5] [] 1 _ _ H)).
Defined.

(** X8.  An argument passed by position and the same argument passed by
    keyword never derive the same key (the two keys differ in length), so
    such calls do not share an entry: after [f(a)] has been cached, [f(x=a)]
    invokes the function again. *)
Theorem cache_positional_and_keyword_differ {Value W : Type}
    (repr : Value -> string) (repr_str : string -> string) (ttl_seconds : Q)
    (func : Callable Value W) (a : Value) (name : string)
    (w : World W) (t0 t1 : Q) (v : Value) (u1 : W) :
  func [a] [] (user w) = (Return v, u1) ->
  make_cache_key repr repr_str [a] [] <> make_cache_key repr repr_str [] [(name, a)] /\
  exists s1,
    cache_wrapper repr repr_str ttl_seconds func [a] [] t0 (cache_empty Value, w)
    = (Return v, s1) /\
    fst (cache_wrapper repr repr_str ttl_seconds func [] [(name, a)] t1 s1)
    = fst (func [] [(name, a)] u1) /\
    invocations (snd (snd (cache_wrapper repr repr_str ttl_seconds func [] [(name, a)]
                             t1 s1)))
    = S (S (invocations w)).
Proof.
  intros Hfunc.
  assert (Hne : make_cache_key repr repr_str [a] []
                <> make_cache_key repr repr_str [] [(name, a)]).
  { intros Heq. apply (f_equal String.length) in Heq.
    unfold make_cache_key, str_tuple, str_items, repr_item, sorted in Heq.
    cbn [foldr sorted_insert map String.concat fst snd] in Heq.
    rewrite !string_length_append in Heq. cbn [String.length] in Heq. lia. }
  split; [exact Hne|].
  eexists. split.
  { rewrite cache_wrapper_miss by (left; split; apply lookup_empty).
    cbn zeta. rewrite Hfunc. reflexivity. }
  rewrite cache_wrapper_miss.
  - cbn zeta. cbn [user invocations fst snd].
    by destruct (func [] [(name, a)] u1) as [[r|e] u2].
  - left. cbn [cache_store cache_timestamps cache_empty].
    split; (rewrite lookup_insert_ne by exact Hne; apply lookup_empty).
Qed.

Lemma cache_positional_and_keyword_differ_witness :
  Demo.double [5] [] (user Demo.world0) = (Return 10, 1%nat) /\
  make_cache_key Demo.repr Demo.repr_str [5] []
  <> make_cache_key Demo.repr Demo.repr_str [] [("x"%string, 5)] /\
  exists s1,
    cache_wrapper Demo.repr Demo.repr_str 60 Demo.double [5] [] 0
      (cache_empty Z, Demo.world0) = (Return 10, s1) /\
    invocations (snd (snd (cache_wrapper Demo.repr Demo.repr_str 60 Demo.double
                             [] [("x"%string, 5)] 1 s1))) = 2%nat.
Proof.
  assert (H : Demo.double [5] [] (user Demo.world0) = (Return 10, 1%nat)) by reflexivity.
  split; [exact H|].
  destruct (cache_positional_and_keyword_differ Demo.repr Demo.repr_str 60 Demo.double
              5 "x" Demo.world0 0 1 10 1%nat H) as (Hne & s1 & Hrun & _ & Hinv).
  split; [exact Hne|]. exists s1. by split.
Defined.

(** ** [rate_limit] *)

(** X9.  With [max_calls <= 0] and no call counted yet, the wrapper does
    not reject with its rate-limit exception: every call indexes the empty
    history on line 218 and raises [IndexError]; the function is never
    invoked. *)
Theorem rate_limit_without_capacity {Value W : Type}
    (max_calls : Z) (period_seconds : Q) (func : Callable Value W)
    (func_id : positive) (func_name : string)
    (calls : list (Call Value)) (storage : gmap positive (list Q)) (w : World W) :
  max_calls <= 0 ->
  default [] (storage !! func_id) = [] ->
  fst (run_calls (rate_limit_wrapper max_calls period_seconds func func_id func_name)
         calls (storage, w))
  = map (fun _ => Raise (mkExn IndexError (MsgText "list index out of range"))) calls /\
  snd (snd (run_calls (rate_limit_wrapper max_calls period_seconds func func_id func_name)
              calls (storage, w))) = w.
Proof.
  intros Hmax. revert storage.
  induction calls as [|c calls IH]; intros storage Hempty; [done|].
  cbn [run_calls map].
  rewrite rate_limit_no_capacity by (try done; by rewrite Hempty).
  specialize (IH (<[func_id := []]> storage)).
  rewrite lookup_insert_eq in IH. specialize (IH eq_refl).
  destruct (run_calls (rate_limit_wrapper max_calls period_seconds func func_id func_name)
              calls (<[func_id := []]> storage, w)) as [os s''].
  cbn [fst snd] in *. destruct IH as [-> ->]. done.
Qed.

Lemma rate_limit_without_capacity_witness :
  0 <= 0 /\
  default [] ((∅ : gmap positive (list Q)) !! 1%positive) = [] /\
  fst (run_calls
         (rate_limit_wrapper 0 60 Demo.successful_function 1%positive "api_endpoint")
         [mkCall [] [] 0; mkCall [] [] 100] (∅, Demo.world0))
  = [Raise (mkExn IndexError (MsgText "list index out of range"));
     Raise (mkExn IndexError (MsgText "list index out of range"))] /\
  snd (snd (run_calls
              (rate_limit_wrapper 0 60 Demo.successful_function 1%positive
                 "api_endpoint")
              [mkCall [] [] 0; mkCall [] [] 100] (∅, Demo.world0)))
  = Demo.world0.
Proof.
  assert (H1 : 0 <= 0) by lia.
  assert (H2 : default [] ((∅ : gmap positive (list Q)) !! 1%positive) = [])
    by reflexivity.
  split; [exact H1|]. split; [exact H2|].
  exact (rate_limit_without_capacity 0 60 Demo.successful_function 1%positive
           "api_endpoint" [mkCall [] [] 0; mkCall [] [] 100] ∅ Demo.world0 H1 H2).
Defined.

(** X10.  The wrapper of one function never changes the history of
    another: whatever a call does, the entry of every other identity in
    [_rate_limit_storage] stays as it was. *)
Theorem rate_limit_other_functions_untouched {Value W : Type}
    (max_calls : Z) (period_seconds : Q) (func : Callable Value W)
    (func_id : positive) (func_name : string)
    (args : list Value) (kwargs : list (string * Value)) (now : Q)
    (storage : gmap positive (list Q)) (w : World W) (other_id : positive) :
  other_id <> func_id ->
  fst (snd (rate_limit_wrapper max_calls period_seconds func func_id func_name
              args kwargs now (storage, w))) !! other_id
  = storage !! other_id.
Proof.
  intros Hne.
  unfold rate_limit_wrapper, bind, get_store, put_store, raise, invoke. cbn [fst snd].
  destruct (max_calls <=? _).
  - destruct (List.filter _ _); cbn [fst snd]; by rewrite lookup_insert_ne.
  - cbn [fst snd]. destruct (func args kwargs (user w)). cbn [fst snd].
    by rewrite lookup_insert_ne.
Qed.

Lemma rate_limit_other_functions_untouched_witness :
  2%positive <> 1%positive /\
  fst (snd (rate_limit_wrapper 2 60 Demo.successful_function 1%positive "api_endpoint"
              [] [] 5 ({[2%positive := [1%Q; 2%Q]]}, Demo.world0))) !! 2%positive
  = Some [1%Q; 2%Q].
Proof.
  assert (H : 2%positive <> 1%positive) by discriminate.
  split; [exact H|].
  rewrite (rate_limit_other_functions_untouched 2 60 Demo.successful_function
             1%positive "api_endpoint" [] [] 5 _ Demo.world0 2%positive H).
  apply lookup_singleton_eq.
Defined.

(** X11.  The history belongs to the function identity, not to the
    decoration: when one function object is decorated twice, a call
    accepted through one wrapper is counted by the other.  Here a call
    through a wrapper with room left makes a wrapper with
    [max_calls = 1] around the same function, which was never called
    itself, reject the next call inside its period. *)
Theorem rate_limit_shared_identity {Value W : Type}
    (max_calls2 : Z) (period1 period2 : Q) (func : Callable Value W)
    (func_id : positive) (name1 name2 : string)
    (c2 c1 : Call Value) (storage : gmap positive (list Q)) (w : World W) :
  default [] (storage !! func_id) = [] ->
  1 <= max_calls2 ->
  (call_time c1 - call_time c2 < period1)%Q ->
  exists storage' w',
    rate_limit_wrapper max_calls2 period2 func func_id name2
      (call_args c2) (call_kwargs c2) (call_time c2) (storage, w)
    = (fst (func (call_args c2) (call_kwargs c2) (user w)), (storage', w')) /\
    storage' !! func_id = Some [call_time c2] /\
    rate_limit_wrapper 1 period1 func func_id name1
      (call_args c1) (call_kwargs c1) (call_time c1) (storage', w')
    = (Raise (mkExn Exception
                (MsgRateLimit name1 (period1 - (call_time c1 - call_time c2))%Q)),
       (storage', w')).
Proof.
  intros Hempty Hroom Hwithin.
  eexists _, _. split.
  { rewrite rate_limit_accepts by (rewrite Hempty; cbn; lia).
    rewrite Hempty. reflexivity. }
  cbn [List.filter app].
  split; [apply lookup_insert_eq|].
  rewrite rate_limit_rejects with (oldest := call_time c2) (others := []).
  - by rewrite insert_insert_eq.
  - rewrite lookup_insert_eq. cbn [default from_option id List.filter].
    apply Qltb_lt in Hwithin. by rewrite Hwithin.
  - cbn. lia.
Qed.

Lemma rate_limit_shared_identity_witness :
  default [] ((∅ : gmap positive (list Q)) !! 1%positive) = [] /\
  1 <= 5 /\ (1 - 0 < 60)%Q /\
  exists storage' w',
    rate_limit_wrapper 5 60 Demo.successful_function 1%positive "get_product"
      [] [] 0 (∅, Demo.world0) = (Return 10, (storage', w')) /\
    rate_limit_wrapper 1 60 Demo.successful_function 1%positive "get_product_strict"
      [] [] 1 (storage', w')
    = (Raise (mkExn Exception (MsgRateLimit "get_product_strict" (60 - (1 - 0))%Q)),
       (storage', w')).
Proof.
  assert (H1 : default [] ((∅ : gmap positive (list Q)) !! 1%positive) = [])
    by reflexivity.
  assert (H2 : 1 <= 5) by lia.
  assert (H3 : (call_time (mkCall ([] : list Z) [] 1)
                - call_time (mkCall ([] : list Z) [] 0) < 60)%Q) by reflexivity.
  split; [exact H1|]. split; [exact H2|]. split; [reflexivity|].
  destruct (rate_limit_shared_identity 5 60 60 Demo.successful_function 1%positive
              "get_product_strict" "get_product" (mkCall [] [] 0) (mkCall [] [] 1)
              ∅ Demo.world0 H1 H2 H3) as (storage' & w' & Hc2 & _ & Hc1).
  exists storage', w'. split; [exact Hc2 | exact Hc1].
Defined.

Lemma rate_limit_window_bound_witness :
  (0 < 10)%Q /\ 0 <= 2 /\
  nondecreasing (map call_time
                   [mkCall ([] : list Z) [] 0; mkCall [] [] 1; mkCall [] [] 2;
                    mkCall [] [] 11]) /\
  accepted_times (rate_limit_wrapper 2 10 Demo.successful_function 1%positive "f")
    [mkCall [] [] 0; mkCall [] [] 1; mkCall [] [] 2; mkCall [] [] 11] (∅, Demo.world0)
  = [0%Q; 1%Q; 11%Q] /\
  Z.of_nat
    (length (List.filter (fun t => Qltb (11 - t) 10)
               (accepted_times
                  (rate_limit_wrapper 2 10 Demo.successful_function 1%positive "f")
                  [mkCall [] [] 0; mkCall [] [] 1; mkCall [] [] 2; mkCall [] [] 11]
                  (∅, Demo.world0))))
  <= 2.
Proof.
  assert (H1 : (0 < 10)%Q) by reflexivity.
  assert (H2 : 0 <= 2) by lia.
  assert (H3 : nondecreasing
                 (map call_time
                    [mkCall ([] : list Z) [] 0; mkCall [] [] 1; mkCall [] [] 2;
                     mkCall [] [] 11])).
  { cbn. repeat split; repeat constructor; vm_compute; discriminate. }
  split; [exact H1|]. split; [exact H2|]. split; [exact H3|]. split; [reflexivity|].
  exact (rate_limit_window_bound 2 10 Demo.successful_function 1%positive "f"
           [mkCall [] [] 0; mkCall [] [] 1; mkCall [] [] 2; mkCall [] [] 11]
           Demo.world0 H1 H2 H3).
Defined.

(** ** [circuit_breaker] *)

(** X13.  Unless it rejects (circuit open and timeout not elapsed), the
    wrapper is transparent: it invokes the function exactly once and the
    caller gets the function's own outcome, value or exception, counted
    or not. *)
Theorem breaker_transparent_unless_rejecting {Value W : Type}
    (failure_threshold : Z) (recovery_timeout : Q) (exceptions : list ExnClass)
    (func : Callable Value W) (func_name : string)
    (args : list Value) (kwargs : list (string * Value)) (now : Q)
    (b : Breaker) (w : World W) :
  state b <> OPEN \/ (recovery_timeout <= now - last_failure_time b)%Q ->
  fst (circuit_breaker_wrapper failure_threshold recovery_timeout exceptions func
         func_name args kwargs now (b, w))
  = fst (func args kwargs (user w)) /\
  snd (snd (circuit_breaker_wrapper failure_threshold recovery_timeout exceptions func
              func_name args kwargs now (b, w)))
  = mkWorld (snd (func args kwargs (user w))) (S (invocations w)) (sleeps w).
Proof.
  destruct b as [st fc lft sc]. cbn [state last_failure_time]. intros Hpass.
  breaker_unfold.
  assert (Hgate : st = OPEN -> Qleb recovery_timeout (now - lft) = true).
  { intros ->. destruct Hpass as [H|H]; [done | by apply Qleb_le]. }
  destruct st; breaker_simpl; try rewrite (Hgate eq_refl); breaker_simpl;
    destruct (func args kwargs (user w)) as [[r|e] u']; breaker_simpl;
    try destruct (2 <=? sc + 1); breaker_simpl; try done;
    destruct (isinstance e exceptions); breaker_simpl; try done;
    destruct (failure_threshold <=? fc + 1); done.
Qed.

Lemma breaker_transparent_unless_rejecting_witness :
  (state (mkBreaker OPEN 2 0 0) <> OPEN \/
   ((1 # 2) <= 1 - last_failure_time (mkBreaker OPEN 2 0 0))%Q) /\
  fst (circuit_breaker_wrapper 2 (1 # 2) [Exception] Demo.failing_function
         "external_api_call" [] [] 1 (mkBreaker OPEN 2 0 0, Demo.world0))
  = Raise (mkExn ConnectionError (MsgText "Connection failed")).
Proof.
  assert (H : state (mkBreaker OPEN 2 0 0) <> OPEN \/
              ((1 # 2) <= 1 - last_failure_time (mkBreaker OPEN 2 0 0))%Q).
  { right. vm_compute. discriminate. }
  split; [exact H|].
  exact (proj1 (breaker_transparent_unless_rejecting 2 (1 # 2) [Exception]
                  Demo.failing_function "external_api_call" [] [] 1
                  (mkBreaker OPEN 2 0 0) Demo.world0 H)).
Defined.

(** X14.  An exception that is not an instance of [exceptions] is passed
    on without being counted: [failure_count] and [last_failure_time]
    keep their values, and the state changes only if this very call took
    the circuit from open to half-open. *)
Theorem breaker_other_failure_not_counted {Value W : Type}
    (failure_threshold : Z) (recovery_timeout : Q) (exceptions : list ExnClass)
    (func : Callable Value W) (func_name : string)
    (args : list Value) (kwargs : list (string * Value)) (now : Q)
    (b : Breaker) (w : World W) (e : Exn Value) (u' : W) :
  state b <> OPEN \/ (recovery_timeout <= now - last_failure_time b)%Q ->
  func args kwargs (user w) = (Raise e, u') ->
  isinstance e exceptions = false ->
  circuit_breaker_wrapper failure_threshold recovery_timeout exceptions func func_name
    args kwargs now (b, w)
  = (Raise e,
     (match state b with
      | OPEN => mkBreaker HALF_OPEN (failure_count b) (last_failure_time b) 0
      | _ => b
      end,
      mkWorld u' (S (invocations w)) (sleeps w))).
Proof.
  destruct b as [st fc lft sc]. cbn [state last_failure_time failure_count].
  intros Hpass Hfunc He. breaker_unfold.
  assert (Hgate : st = OPEN -> Qleb recovery_timeout (now - lft) = true).
  { intros ->. destruct Hpass as [H|H]; [done | by apply Qleb_le]. }
  destruct st; breaker_simpl; try rewrite (Hgate eq_refl); breaker_simpl;
    rewrite Hfunc, He; reflexivity.
Qed.

Lemma breaker_other_failure_not_counted_witness :
  (state (mkBreaker CLOSED 1 5 0) <> OPEN \/
   (10 <= 7 - last_failure_time (mkBreaker CLOSED 1 5 0))%Q) /\
  isinstance (mkExn (Value := Z) Exception (MsgText "boom")) [ConnectionError] = false /\
  circuit_breaker_wrapper 3 10 [ConnectionError] Demo.raises_exception
    "external_api_call" [] [] 7 (mkBreaker CLOSED 1 5 0, Demo.world0)
  = (Raise (mkExn Exception (MsgText "boom")),
     (mkBreaker CLOSED 1 5 0, mkWorld 1%nat 1%nat [])).
Proof.
  assert (H1 : state (mkBreaker CLOSED 1 5 0) <> OPEN \/
               (10 <= 7 - last_failure_time (mkBreaker CLOSED 1 5 0))%Q)
    by (left; discriminate).
  assert (H2 : isinstance (mkExn (Value := Z) Exception (MsgText "boom"))
                 [ConnectionError] = false) by reflexivity.
  split; [exact H1|]. split; [exact H2|].
  exact (breaker_other_failure_not_counted 3 10 [ConnectionError] Demo.raises_exception
           "external_api_call" [] [] 7 (mkBreaker CLOSED 1 5 0) Demo.world0 _ _
           H1 eq_refl H2).
Defined.

(** X15.  Only consecutive failures open the circuit: after fewer than
    [failure_threshold] counted failures of a closed circuit, one
    returning call brings [failure_count] back to 0 and the circuit is
    still closed. *)
Theorem breaker_success_forgets_failures {Value W : Type}
    (failure_threshold : Z) (recovery_timeout : Q) (exceptions : list ExnClass)
    (func : Callable Value W) (func_name : string)
    (failures : list (Call Value)) (c : Call Value) (b : Breaker) (w : World W) :
  state b = CLOSED ->
  failure_count b + Z.of_nat (length failures) < failure_threshold ->
  Forall (qualifying_failure exceptions) (fst (run_func func failures (user w))) ->
  is_return (fst (func (call_args c) (call_kwargs c)
                    (snd (run_func func failures (user w))))) ->
  exists b1 w1,
    snd (run_calls (circuit_breaker_wrapper failure_threshold recovery_timeout
                      exceptions func func_name) failures (b, w)) = (b1, w1) /\
    state b1 = CLOSED /\
    failure_count b1 = failure_count b + Z.of_nat (length failures) /\
    exists w2,
      circuit_breaker_wrapper failure_threshold recovery_timeout exceptions func
        func_name (call_args c) (call_kwargs c) (call_time c) (b1, w1)
      = (fst (func (call_args c) (call_kwargs c) (user w1)),
         (mkBreaker CLOSED 0 (last_failure_time b1) (success_count b1), w2)).
Proof.
  intros Hclosed Hcount Hfail Hret.
  destruct (breaker_run_failures failure_threshold recovery_timeout exceptions func
              func_name failures b w Hclosed ltac:(lia) Hfail)
    as (b1 & w1 & Hrun & Hu & _ & Hfc & _ & Hst).
  exists b1, w1. rewrite Hrun. split; [done|].
  assert (Hclosed1 : state b1 = CLOSED).
  { destruct failures as [|c0 failures].
    - cbn in Hrun. by inversion Hrun; subst.
    - rewrite Hst by done.
      replace (failure_threshold <=? failure_count b1) with false; [done|].
      symmetry. apply Z.leb_gt. lia. }
  split; [exact Hclosed1|]. split; [exact Hfc|].
  rewrite <- Hu in Hret.
  destruct (func (call_args c) (call_kwargs c) (user w1)) as [[r|e] u2] eqn:Hf;
    [|done].
  eexists. by rewrite (breaker_closed_success _ _ _ _ _ _ _ _ b1 w1 r u2 Hclosed1 Hf).
Qed.

Lemma breaker_success_forgets_failures_witness :
  state breaker_init = CLOSED /\
  failure_count breaker_init + Z.of_nat (length [mkCall ([] : list Z) [] 0; mkCall [] [] 1])
  < 3 /\
  state (fst (snd (run_calls
                     (circuit_breaker_wrapper 3 10 [Exception] Demo.flaky_function
                        "external_api_call")
                     [mkCall [] [] 0; mkCall [] [] 1; mkCall [] [] 2]
                     (breaker_init, Demo.world0)))) = CLOSED /\
  failure_count (fst (snd (run_calls
                     (circuit_breaker_wrapper 3 10 [Exception] Demo.flaky_function
                        "external_api_call")
                     [mkCall [] [] 0; mkCall [] [] 1; mkCall [] [] 2]
                     (breaker_init, Demo.world0)))) = 0.
Proof.
  assert (H1 : state breaker_init = CLOSED) by reflexivity.
  assert (H2 : failure_count breaker_init
               + Z.of_nat (length [mkCall ([] : list Z) [] 0; mkCall [] [] 1]) < 3)
    by (cbn; lia).
  assert (H3 : Forall (qualifying_failure [Exception])
                 (fst (run_func Demo.flaky_function
                         [mkCall [] [] 0; mkCall [] [] 1] (user Demo.world0))))
    by (cbn; repeat constructor).
  assert (H4 : is_return
                 (fst (Demo.flaky_function (call_args (mkCall ([] : list Z) [] 2))
                         (call_kwargs (mkCall ([] : list Z) [] 2))
                         (snd (run_func Demo.flaky_function
                                 [mkCall [] [] 0; mkCall [] [] 1] (user Demo.world0))))))
    by exact I.
  split; [exact H1|]. split; [exact H2|].
  destruct (breaker_success_forgets_failures 3 10 [Exception] Demo.flaky_function
              "external_api_call" [mkCall [] [] 0; mkCall [] [] 1] (mkCall [] [] 2)
              breaker_init Demo.world0 H1 H2 H3 H4)
    as (b1 & w1 & _ & _ & _ & w2 & _).
  split; reflexivity.
Defined.

(** X16.  A probe that fails starts the timeout anew: when the timeout of
    an open circuit (in a reachable state) has elapsed and the call let
    through fails with a counted exception, the circuit is open again with
    [last_failure_time] the clock reading of that call, and a call made
    less than [recovery_timeout] after it is rejected. *)
Theorem breaker_failed_probe_reopens {Value W : Type}
    (failure_threshold : Z) (recovery_timeout : Q) (exceptions : list ExnClass)
    (func : Callable Value W) (func_name : string)
    (probe next : Call Value) (b : Breaker) (w : World W) (e : Exn Value) (u' : W) :
  breaker_reachable failure_threshold recovery_timeout exceptions func func_name b ->
  state b = OPEN ->
  (recovery_timeout <= call_time probe - last_failure_time b)%Q ->
  func (call_args probe) (call_kwargs probe) (user w) = (Raise e, u') ->
  isinstance e exceptions = true ->
  (call_time next - call_time probe < recovery_timeout)%Q ->
  circuit_breaker_wrapper failure_threshold recovery_timeout exceptions func func_name
    (call_args probe) (call_kwargs probe) (call_time probe) (b, w)
  = (Raise e,
     (mkBreaker OPEN (failure_count b + 1) (call_time probe) 0,
      mkWorld u' (S (invocations w)) (sleeps w))) /\
  circuit_breaker_wrapper failure_threshold recovery_timeout exceptions func func_name
    (call_args next) (call_kwargs next) (call_time next)
    (mkBreaker OPEN (failure_count b + 1) (call_time probe) 0,
     mkWorld u' (S (invocations w)) (sleeps w))
  = (Raise (mkExn Exception
              (MsgCircuitOpen func_name
                 (recovery_timeout - (call_time next - call_time probe))%Q)),
     (mkBreaker OPEN (failure_count b + 1) (call_time probe) 0,
      mkWorld u' (S (invocations w)) (sleeps w))).
Proof.
  intros Hreach Hopen Helapsed Hfunc He Hnext.
  pose proof (breaker_reachable_invariant _ _ _ _ _ b Hreach ltac:(by rewrite Hopen))
    as Hinv.
  split; [|by apply breaker_rejects].
  destruct b as [st fc lft sc]. cbn [state last_failure_time failure_count] in *.
  subst st. breaker_unfold.
  apply Qleb_le in Helapsed. rewrite Helapsed. breaker_simpl.
  rewrite Hfunc, He. breaker_simpl.
  replace (failure_threshold <=? fc + 1) with true
    by (symmetry; apply Z.leb_le; lia).
  reflexivity.
Qed.

Lemma breaker_failed_probe_reopens_witness :
  breaker_reachable 2 (1 # 2) [Exception] Demo.failing_function "external_api_call"
    (mkBreaker OPEN 2 0 0) /\
  ((1 # 2) <= 1 - last_failure_time (mkBreaker OPEN 2 0 0))%Q /\
  ((12 # 10) - 1 < 1 # 2)%Q /\
  run_calls (circuit_breaker_wrapper 2 (1 # 2) [Exception] Demo.failing_function
               "external_api_call")
    [mkCall [] [] 1; mkCall [] [] (12 # 10)] (mkBreaker OPEN 2 0 0, Demo.world0)
  = ([Raise (mkExn ConnectionError (MsgText "Connection failed"));
      Raise (mkExn Exception
               (MsgCircuitOpen "external_api_call" ((1 # 2) - ((12 # 10) - 1))%Q))],
     (mkBreaker OPEN 3 1 0, mkWorld 1%nat 1%nat [])).
Proof.
  assert (H1 : breaker_reachable 2 (1 # 2) [Exception] Demo.failing_function
                 "external_api_call" (mkBreaker OPEN 2 0 0)).
  { exact (reach_call 2 (1 # 2) [Exception] Demo.failing_function "external_api_call"
             (mkBreaker CLOSED 1 0 0) [] [] 0 Demo.world0
             (reach_call 2 (1 # 2) [Exception] Demo.failing_function
                "external_api_call" breaker_init [] [] 0 Demo.world0
                (reach_init 2 (1 # 2) [Exception] Demo.failing_function
                   "external_api_call"))). }
  assert (H2 : ((1 # 2) <= call_time (mkCall ([] : list Z) [] 1)
                - last_failure_time (mkBreaker OPEN 2 0 0))%Q)
    by (vm_compute; discriminate).
  assert (H3 : (call_time (mkCall ([] : list Z) [] (12 # 10))
                - call_time (mkCall ([] : list Z) [] 1) < 1 # 2)%Q) by reflexivity.
  split; [exact H1|]. split; [exact H2|]. split; [exact H3|].
  destruct (breaker_failed_probe_reopens 2 (1 # 2) [Exception] Demo.failing_function
              "external_api_call" (mkCall [] [] 1) (mkCall [] [] (12 # 10))
              (mkBreaker OPEN 2 0 0) Demo.world0
              (mkExn ConnectionError (MsgText "Connection failed")) 1%nat
              H1 eq_refl H2 eq_refl eq_refl H3)
    as [Hprobe Hnext].
  cbn [run_calls call_args call_kwargs call_time failure_count user invocations
       sleeps Demo.world0] in *.
  rewrite Hprobe, Hnext. reflexivity.
Defined.

(** The counters stay in range. *)
Lemma breaker_counts_step {Value W : Type}
    (failure_threshold : Z) (recovery_timeout : Q) (exceptions : list ExnClass)
    (func : Callable Value W) (func_name : string)
    (args : list Value) (kwargs : list (string * Value)) (now : Q)
    (b : Breaker) (w : World W) :
  (0 <= failure_count b /\ 0 <= success_count b <= 2 /\
   (state b = HALF_OPEN -> success_count b <= 1)) ->
  0 <= failure_count
         (fst (snd (circuit_breaker_wrapper failure_threshold recovery_timeout
                      exceptions func func_name args kwargs now (b, w)))) /\
  0 <= success_count
         (fst (snd (circuit_breaker_wrapper failure_threshold recovery_timeout
                      exceptions func func_name args kwargs now (b, w)))) <= 2 /\
  (state (fst (snd (circuit_breaker_wrapper failure_threshold recovery_timeout
                      exceptions func func_name args kwargs now (b, w)))) = HALF_OPEN ->
   success_count
     (fst (snd (circuit_breaker_wrapper failure_threshold recovery_timeout
                  exceptions func func_name args kwargs now (b, w)))) <= 1).
Proof.
  destruct b as [st fc lft sc]. cbn [state failure_count success_count].
  intros (Hfc & Hsc & Hhalf). breaker_unfold.
  destruct st; breaker_simpl.
  - destruct (func args kwargs (user w)) as [[r|e] u']; breaker_simpl;
      [repeat split; (lia || done)|].
    destruct (isinstance e exceptions); breaker_simpl;
      [|repeat split; (lia || done)].
    destruct (failure_threshold <=? fc + 1); breaker_simpl;
      repeat split; (lia || done).
  - destruct (Qleb recovery_timeout (now - lft)); breaker_simpl;
      [|repeat split; (lia || done)].
    destruct (func args kwargs (user w)) as [[r|e] u']; breaker_simpl;
      [repeat split; (lia || done)|].
    destruct (isinstance e exceptions); breaker_simpl;
      [|repeat split; (lia || done)].
    destruct (failure_threshold <=? fc + 1); breaker_simpl;
      repeat split; (lia || done).
  - specialize (Hhalf eq_refl).
    destruct (func args kwargs (user w)) as [[r|e] u']; breaker_simpl.
    + destruct (Z.leb_spec 2 (sc + 1)); breaker_simpl;
        repeat split; (lia || done || (intros _; lia)).
    + destruct (isinstance e exceptions); breaker_simpl;
        [|repeat split; (lia || done || (intros _; lia))].
      destruct (failure_threshold <=? fc + 1); breaker_simpl;
        repeat split; (lia || done || (intros _; lia)).
Qed.

(** X17.  In every reachable state [failure_count] is not negative and
    [success_count] is 0, 1 or 2; while the circuit is half-open it is
    below 2, so a half-open circuit always needs at least one more
    success before it closes. *)
Theorem breaker_counts_in_range {Value W : Type}
    (failure_threshold : Z) (recovery_timeout : Q) (exceptions : list ExnClass)
    (func : Callable Value W) (func_name : string) (b : Breaker) :
  breaker_reachable failure_threshold recovery_timeout exceptions func func_name b ->
  0 <= failure_count b /\
  0 <= success_count b <= 2 /\
  (state b = HALF_OPEN -> success_count b <= 1).
Proof.
  induction 1 as [|b args kwargs now w Hreach IH].
  - cbn. repeat split; (lia || done).
  - by apply breaker_counts_step.
Qed.

Lemma breaker_counts_in_range_witness :
  breaker_reachable 2 (1 # 2) [Exception] Demo.flaky_function "flaky_function"
    (mkBreaker HALF_OPEN 2 0 0) /\
  0 <= success_count (mkBreaker HALF_OPEN 2 0 0) <= 2.
Proof.
  assert (Hreach : breaker_reachable 2 (1 # 2) [Exception] Demo.flaky_function
                     "flaky_function" (mkBreaker HALF_OPEN 2 0 0)).
  { exact (reach_call 2 (1 # 2) [Exception] Demo.flaky_function "flaky_function"
             (mkBreaker OPEN 2 0 0) [] [] 1 (mkWorld 2%nat 2%nat [])
             (reach_call 2 (1 # 2) [Exception] Demo.flaky_function "flaky_function"
                (mkBreaker CLOSED 1 0 0) [] [] 0 (mkWorld 1%nat 1%nat [])
                (reach_call 2 (1 # 2) [Exception] Demo.flaky_function "flaky_function"
                   breaker_init [] [] 0 Demo.world0
                   (reach_init 2 (1 # 2) [Exception] Demo.flaky_function
                      "flaky_function")))). }
  split; [exact Hreach|].
  exact (proj1 (proj2 (breaker_counts_in_range 2 (1 # 2) [Exception]
                         Demo.flaky_function "flaky_function" _ Hreach))).
Defined.

(** ** [timing_decorator] and [logging_decorator] *)

(** What one call of each wrapper does, as an equation. *)
Lemma timing_wrapper_outcome {Value W : Type}
    (func : Callable Value W) (func_name : string)
    (args : list Value) (kwargs : list (string * Value)) (start_time end_time : Q)
    (records : list (LogRecord Value)) (w : World W) :
  timing_wrapper func func_name args kwargs start_time end_time (records, w)
  = (fst (func args kwargs (user w)),
     (records ++
        match fst (func args kwargs (user w)) with
        | Return _ => [InfoExecutionTime func_name (end_time - start_time)%Q]
        | Raise e =>
            if isinstance e [Exception]
            then [ErrorAfter func_name (end_time - start_time)%Q e]
            else []
        end,
      mkWorld (snd (func args kwargs (user w))) (S (invocations w)) (sleeps w))).
Proof.
  unfold timing_wrapper, try_except, emit, bind, get_store, put_store, ret, raise,
    invoke.
  cbn [fst snd].
  destruct (func args kwargs (user w)) as [[r|e] u']; cbn [fst snd]; [done|].
  destruct (isinstance e [Exception]); cbn [fst snd]; [done|].
  by rewrite app_nil_r.
Qed.

Lemma logging_wrapper_outcome {Value W : Type}
    (func : Callable Value W) (func_name : string)
    (args : list Value) (kwargs : list (string * Value))
    (records : list (LogRecord Value)) (w : World W) :
  logging_wrapper func func_name args kwargs (records, w)
  = (fst (func args kwargs (user w)),
     (records ++
        InfoCalling func_name args kwargs ::
        match fst (func args kwargs (user w)) with
        | Return result => [InfoResult func_name result]
        | Raise e =>
            if isinstance e [Exception] then [ErrorIn func_name e] else []
        end,
      mkWorld (snd (func args kwargs (user w))) (S (invocations w)) (sleeps w))).
Proof.
  unfold logging_wrapper, try_except, emit, bind, get_store, put_store, ret, raise,
    invoke.
  cbn [fst snd].
  destruct (func args kwargs (user w)) as [[r|e] u']; cbn [fst snd].
  - by rewrite <- app_assoc.
  - destruct (isinstance e [Exception]); cbn [fst snd]; by rewrite <- ?app_assoc.
Qed.

(** X18.  [timing_decorator] is transparent: it invokes the function
    exactly once and hands on its outcome unchanged.  It logs one record
    with the elapsed time [end_time - start_time], an info record for a
    value and an error record for an exception derived from [Exception];
    an exception outside [Exception] (a [KeyboardInterrupt]) passes
    without a record. *)
Theorem timing_decorator_transparent {Value W : Type}
    (func : Callable Value W) (func_name : string)
    (args : list Value) (kwargs : list (string * Value)) (start_time end_time : Q)
    (records : list (LogRecord Value)) (w : World W) :
  fst (timing_wrapper func func_name args kwargs start_time end_time (records, w))
  = fst (func args kwargs (user w)) /\
  snd (snd (timing_wrapper func func_name args kwargs start_time end_time (records, w)))
  = mkWorld (snd (func args kwargs (user w))) (S (invocations w)) (sleeps w) /\
  fst (snd (timing_wrapper func func_name args kwargs start_time end_time (records, w)))
  = records ++
      match fst (func args kwargs (user w)) with
      | Return _ => [InfoExecutionTime func_name (end_time - start_time)%Q]
      | Raise e =>
          if isinstance e [Exception]
          then [ErrorAfter func_name (end_time - start_time)%Q e]
          else []
      end.
Proof. by rewrite timing_wrapper_outcome. Qed.

(** X19.  [logging_decorator] is transparent in the same way; it logs the
    call with its arguments first and then the result, or the error for an
    exception derived from [Exception]. *)
Theorem logging_decorator_transparent {Value W : Type}
    (func : Callable Value W) (func_name : string)
    (args : list Value) (kwargs : list (string * Value))
    (records : list (LogRecord Value)) (w : World W) :
  fst (logging_wrapper func func_name args kwargs (records, w))
  = fst (func args kwargs (user w)) /\
  snd (snd (logging_wrapper func func_name args kwargs (records, w)))
  = mkWorld (snd (func args kwargs (user w))) (S (invocations w)) (sleeps w) /\
  fst (snd (logging_wrapper func func_name args kwargs (records, w)))
  = records ++
      InfoCalling func_name args kwargs ::
      match fst (func args kwargs (user w)) with
      | Return result => [InfoResult func_name result]
      | Raise e => if isinstance e [Exception] then [ErrorIn func_name e] else []
      end.
Proof. by rewrite logging_wrapper_outcome. Qed.

(** ** Stacked decorators *)

(** X20.  [get_user] of [api_example.py], the cache under the logging and
    the timing decorator: when a request misses the cache and the body
    returns [v], a second request with the same arguments less than 30
    seconds later returns [v] without running the body; both requests are
    logged by both outer decorators, which see only the returned value. *)
Theorem get_user_caches_under_instrumentation {Value W : Type}
    (repr : Value -> string) (repr_str : string -> string)
    (func : Callable Value W) (args : list Value) (kwargs : list (string * Value))
    (start0 cache0 end0 start1 cache1 end1 : Q)
    (timing_records logging_records : list (LogRecord Value))
    (st : CacheState Value) (w : World W) (n_cache n_logging : nat)
    (v : Value) (u1 : W) :
  cache_stale 30 st (make_cache_key repr repr_str args kwargs) cache0 ->
  func args kwargs (user w) = (Return v, u1) ->
  (cache1 - cache0 < 30)%Q ->
  exists st1,
    get_user repr repr_str func args kwargs start0 cache0 end0
      (timing_records,
       mkWorld (logging_records, mkWorld (st, w) n_cache []) n_logging [])
    = (Return v,
       (timing_records ++ [InfoExecutionTime "get_user" (end0 - start0)%Q],
        mkWorld (logging_records ++ [InfoCalling "get_user" args kwargs;
                                     InfoResult "get_user" v],
                 mkWorld (st1, mkWorld u1 (S (invocations w)) (sleeps w))
                   (S n_cache) [])
          (S n_logging) [])) /\
    get_user repr repr_str func args kwargs start1 cache1 end1
      (timing_records ++ [InfoExecutionTime "get_user" (end0 - start0)%Q],
       mkWorld (logging_records ++ [InfoCalling "get_user" args kwargs;
                                    InfoResult "get_user" v],
                mkWorld (st1, mkWorld u1 (S (invocations w)) (sleeps w))
                  (S n_cache) [])
         (S n_logging) [])
    = (Return v,
       ((timing_records ++ [InfoExecutionTime "get_user" (end0 - start0)%Q])
          ++ [InfoExecutionTime "get_user" (end1 - start1)%Q],
        mkWorld ((logging_records ++ [InfoCalling "get_user" args kwargs;
                                      InfoResult "get_user" v])
                   ++ [InfoCalling "get_user" args kwargs; InfoResult "get_user" v],
                 mkWorld (st1, mkWorld u1 (S (invocations w)) (sleeps w))
                   (S (S n_cache)) [])
          (S (S n_logging)) [])).
Proof.
  intros Hstale Hfunc Hwithin.
  exists (mkCache (<[make_cache_key repr repr_str args kwargs := v]> (cache_store st))
                  (<[make_cache_key repr repr_str args kwargs := cache0]>
                     (cache_timestamps st))).
  unfold get_user. split.
  - rewrite timing_wrapper_outcome. cbn [user invocations sleeps].
    rewrite logging_wrapper_outcome. cbn [user invocations sleeps].
    rewrite cache_wrapper_miss by exact Hstale. cbn zeta. rewrite Hfunc.
    reflexivity.
  - rewrite timing_wrapper_outcome. cbn [user invocations sleeps].
    rewrite logging_wrapper_outcome. cbn [user invocations sleeps].
    rewrite (cache_wrapper_hit repr repr_str 30 func args kwargs cache1 cache0 v)
      by (cbn [cache_store cache_timestamps]; try apply lookup_insert_eq; done).
    reflexivity.
Qed.

Lemma get_user_caches_under_instrumentation_witness :
  cache_stale 30 (cache_empty Z) (make_cache_key Demo.repr Demo.repr_str [5] []) 1 /\
  Demo.double [5] [] (user Demo.world0) = (Return 10, 1%nat) /\
  (4 - 1 < 30)%Q /\
  exists s1,
    get_user Demo.repr Demo.repr_str Demo.double [5] [] 0 1 2
      ([], mkWorld ([], mkWorld (cache_empty Z, Demo.world0) 0%nat []) 0%nat [])
    = (Return 10, s1) /\
    fst (get_user Demo.repr Demo.repr_str Demo.double [5] [] 3 4 5 s1) = Return 10 /\
    invocations
      (snd (user (snd (user (snd (snd (get_user Demo.repr Demo.repr_str Demo.double
                                         [5] [] 3 4 5 s1)))))))
    = 1%nat.
Proof.
  assert (H1 : cache_stale 30 (cache_empty Z)
                 (make_cache_key Demo.repr Demo.repr_str [5] []) 1).
  { left. split; apply lookup_empty. }
  assert (H2 : Demo.double [5] [] (user Demo.world0) = (Return 10, 1%nat))
    by reflexivity.
  assert (H3 : (4 - 1 < 30)%Q) by reflexivity.
  split; [exact H1|]. split; [exact H2|]. split; [exact H3|].
  destruct (get_user_caches_under_instrumentation Demo.repr Demo.repr_str Demo.double
              [5] [] 0 1 2 3 4 5 [] [] (cache_empty Z) Demo.world0 0%nat 0%nat
              10 1%nat H1 H2 H3) as (st1 & Hfirst & Hsecond).
  eexists. split; [exact Hfirst|]. rewrite Hsecond. by split.
Defined.

Section RetryOverRateLimit.
Context {Value W : Type}.
Variables (max_attempts : Z) (backoff : Q) (exceptions : list ExnClass).
Variables (max_calls : Z) (period_seconds : Q) (clock : nat -> Q).
Variable func : Callable Value W.
Variables (func_id : positive) (func_name : string).
Variables (args : list Value) (kwargs : list (string * Value)).
Variables (storage : gmap positive (list Q)) (w : World W).
Variables (oldest : Q) (others : list Q).

Hypothesis backoff_nonneg : (0 <= backoff)%Q.
Hypothesis catches_exception : existsb (issubclass Exception) exceptions = true.
Hypothesis history_full : storage !! func_id = Some (oldest :: others).
Hypothesis at_limit : max_calls <= Z.of_nat (length (oldest :: others)).
Hypothesis all_in_window :
  forall n, Forall (fun t => (clock n - t < period_seconds)%Q) (oldest :: others).

(** One attempt against the full history: rejected, nothing changes but
    the number of clock readings. *)
Lemma rate_limited_attempt (n : nat) :
  with_clock clock (rate_limit_wrapper max_calls period_seconds func func_id func_name)
    args kwargs (n, (storage, w))
  = (Raise (mkExn Exception
              (MsgRateLimit func_name (period_seconds - (clock n - oldest))%Q)),
     (S n, (storage, w))).
Proof.
  unfold with_clock. cbn [fst snd].
  rewrite rate_limit_rejects with (oldest := oldest) (others := others).
  - by rewrite insert_id by exact history_full.
  - rewrite history_full. cbn [default from_option id].
    apply filter_all_live, all_in_window.
  - exact at_limit.
Qed.

Lemma retry_loop_rate_limited (k : nat) :
  forall (a : Z) (last : option (Exn Value)) (d : Q) (n inv : nat) (sl : list Q),
    a + Z.of_nat k = max_attempts -> (0 <= d)%Q ->
    retry_loop max_attempts backoff exceptions
      (with_clock clock
         (rate_limit_wrapper max_calls period_seconds func func_id func_name))
      args kwargs (py_range a (max_attempts + 1)) last d
      (tt, mkWorld (n, (storage, w)) inv sl)
    = (Raise (mkExn Exception
                (MsgRateLimit func_name
                   (period_seconds - (clock (n + k) - oldest))%Q)),
       (tt, mkWorld (n + S k, (storage, w))%nat (inv + S k)
              (sl ++ backoff_waits d backoff k))).
Proof.
  induction k as [|k IH]; intros a last d n inv sl Ha Hd.
  - rewrite py_range_cons by lia. rewrite py_range_nil by lia.
    cbn [retry_loop]. unfold invoke. cbn [fst snd user invocations sleeps].
    rewrite rate_limited_attempt. unfold isinstance. cbn [exn_class].
    rewrite catches_exception.
    replace (a <? max_attempts) with false by (symmetry; apply Z.ltb_ge; lia).
    cbn [retry_loop raise backoff_waits].
    rewrite app_nil_r, Nat.add_0_r, !Nat.add_1_r. reflexivity.
  - rewrite py_range_cons by lia. cbn [retry_loop].
    unfold invoke at 1. cbn [fst snd user invocations sleeps].
    rewrite rate_limited_attempt. unfold isinstance at 1. cbn [exn_class].
    rewrite catches_exception.
    replace (a <? max_attempts) with true by (symmetry; apply Z.ltb_lt; lia).
    unfold bind at 1, time_sleep at 1.
    replace (Qltb d 0) with false by (symmetry; by apply Qltb_ge).
    cbn [fst snd user invocations sleeps].
    rewrite (IH (a + 1) _ (d * backoff)%Q (S n) (S inv) (sl ++ [d]))
      by (try lia; by apply Qmult_le_0_compat).
    cbn [backoff_waits]. rewrite <- app_assoc.
    replace (S n + k)%nat with (n + S k)%nat by lia.
    replace (S n + S k)%nat with (n + S (S k))%nat by lia.
    replace (S inv + S k)%nat with (inv + S (S k))%nat by lia.
    reflexivity.
Qed.

End RetryOverRateLimit.

(** X21.  [retry] around [rate_limit], as in [unreliable_service]: the
    rejection of the rate limiter is a plain [Exception], so a retrier
    that retries [Exception] retries it.  While the history stays full,
    one call makes all [max_attempts] attempts against the limiter,
    sleeping the whole backoff schedule, never reaches the function, and
    ends with the rejection of the last attempt. *)
Theorem retry_retries_rate_limit_rejections {Value W : Type}
    (max_attempts : Z) (delay backoff : Q) (exceptions : list ExnClass)
    (max_calls : Z) (period_seconds : Q) (clock : nat -> Q)
    (func : Callable Value W) (func_id : positive) (func_name : string)
    (args : list Value) (kwargs : list (string * Value))
    (storage : gmap positive (list Q)) (w : World W)
    (oldest : Q) (others : list Q) (n inv : nat) (sl : list Q) :
  1 <= max_attempts ->
  (0 <= delay)%Q ->
  (0 <= backoff)%Q ->
  existsb (issubclass Exception) exceptions = true ->
  storage !! func_id = Some (oldest :: others) ->
  max_calls <= Z.of_nat (length (oldest :: others)) ->
  (forall m, Forall (fun t => (clock m - t < period_seconds)%Q) (oldest :: others)) ->
  retry_wrapper max_attempts delay backoff exceptions
    (with_clock clock
       (rate_limit_wrapper max_calls period_seconds func func_id func_name))
    args kwargs (tt, mkWorld (n, (storage, w)) inv sl)
  = (Raise (mkExn Exception
              (MsgRateLimit func_name
                 (period_seconds
                  - (clock (n + (Z.to_nat max_attempts - 1))%nat - oldest))%Q)),
     (tt, mkWorld (n + Z.to_nat max_attempts, (storage, w))%nat
            (inv + Z.to_nat max_attempts)
            (sl ++ backoff_waits delay backoff (Z.to_nat max_attempts - 1)))).
Proof.
  intros Hmax Hdelay Hbackoff Hcatch Hfull Hlimit Hwindow.
  unfold retry_wrapper.
  rewrite (retry_loop_rate_limited max_attempts backoff exceptions max_calls
             period_seconds clock func func_id func_name args kwargs storage w
             oldest others Hbackoff Hcatch Hfull Hlimit Hwindow
             (Z.to_nat max_attempts - 1) 1 None delay n inv sl) by (try lia; done).
  replace (S (Z.to_nat max_attempts - 1)) with (Z.to_nat max_attempts) by lia.
  reflexivity.
Qed.

(** [unreliable_service] with its three slots taken at 0, 1 and 2 s and
    the clock read at 3, 3.5 and 4.5 s: three rejected attempts, the body
    untouched. *)
Lemma retry_retries_rate_limit_rejections_witness :
  1 <= 3 /\ (0 <= 1 # 2)%Q /\ (0 <= 2)%Q /\
  existsb (issubclass Exception) [Exception] = true /\
  3 <= Z.of_nat (length [0%Q; 1%Q; 2%Q]) /\
  unreliable_service
    (fun m => match m with 0%nat => 3 | 1%nat => 7 # 2 | _ => 9 # 2 end)%Q
    Demo.failing_function 1%positive
    (tt, mkWorld (0%nat, ({[1%positive := [0%Q; 1%Q; 2%Q]]}, Demo.world0)) 0%nat [])
  = (Raise (mkExn Exception
              (MsgRateLimit "unreliable_service" (10 - ((9 # 2) - 0))%Q)),
     (tt, mkWorld (3%nat, ({[1%positive := [0%Q; 1%Q; 2%Q]]}, Demo.world0)) 3%nat
            [1 # 2; (1 # 2) * 2]%Q)).
Proof.
  assert (H1 : 1 <= 3) by lia.
  assert (H2 : (0 <= 1 # 2)%Q) by (vm_compute; discriminate).
  assert (H3 : (0 <= 2)%Q) by (vm_compute; discriminate).
  assert (H4 : existsb (issubclass Exception) [Exception] = true) by reflexivity.
  assert (H5 : ({[1%positive := [0%Q; 1%Q; 2%Q]]} : gmap positive (list Q))
               !! 1%positive = Some [0%Q; 1%Q; 2%Q]) by apply lookup_singleton_eq.
  assert (H6 : 3 <= Z.of_nat (length [0%Q; 1%Q; 2%Q])) by (cbn; lia).
  assert (H7 : forall m,
             Forall (fun t => ((fun m => match m with
                                         | 0%nat => 3 | 1%nat => 7 # 2 | _ => 9 # 2
                                         end)%Q m - t < 10)%Q) [0%Q; 1%Q; 2%Q]).
  { intros [|[|m]]; repeat constructor. }
  split; [exact H1|]. split; [exact H2|]. split; [exact H3|]. split; [exact H4|].
  split; [exact H6|].
  exact (retry_retries_rate_limit_rejections 3 (1 # 2) 2 [Exception] 3 10 _
           Demo.failing_function 1%positive "unreliable_service" [] []
           _ Demo.world0 0 [1%Q; 2%Q] 0%nat 0%nat [] H1 H2 H3 H4 H5 H6 H7).
Defined.

(** X22.  [process_data] of [api_example.py] never answers: the
    [ValueError] handler around [process_user_data] does not catch the
    [AttributeError] that every call of a [validate_input] wrapper raises,
    so each request ends in that [AttributeError], logged by the timing
    decorator; the handler's [HTTPException] with status 400 is never
    raised and the decorated function never runs. *)
Theorem process_data_always_fails {Value W : Type}
    (http_400 : Exn Value -> Exn Value)
    (validators : list (string * (Value -> bool)))
    (process_user_data : Callable Value W) (func_sig : Signature)
    (args : list Value) (kwargs : list (string * Value)) (start_time end_time : Q)
    (records : list (LogRecord Value)) (w : World W) (inv : nat) (sl : list Q) :
  process_data http_400 validators process_user_data func_sig args kwargs
    start_time end_time (records, mkWorld (tt, w) inv sl)
  = (Raise (mkExn AttributeError (MsgNoAttribute "functools" "signature")),
     (records ++
        [ErrorAfter "process_data" (end_time - start_time)%Q
           (mkExn AttributeError (MsgNoAttribute "functools" "signature"))],
      mkWorld (tt, w) (S inv) sl)).
Proof.
  unfold process_data. rewrite timing_wrapper_outcome. reflexivity.
Qed.


